(** * Lux meter sketch (labN5/2.ino): calibration, EEPROM log and keypad task

    A shallow embedding of the parts of the sketch that carry logic:
    the piecewise-linear calibration function [calculateLuxFromADC], the
    accuracy self-test [printCalibrationTable], the circular EEPROM log
    [saveToEEPROM] and the debounce logic of [vTaskKeyboard].

    The target is the Arduino UNO (AVR): [int] is 16 bits wide, [float] and
    [double] are both IEEE-754 binary32 (taken with round to nearest, ties
    to even), and structs are packed with alignment 1. *)

From Stdlib Require Import ZArith QArith Qabs Bool Ascii Lia Lqa.
From Stdlib Require Import Floats.SpecFloat.
From stdpp Require Import base option list strings.

Local Open Scope Z_scope.

(* ===================================================================== *)
(** ** Arithmetic of the [float] type *)
(* ===================================================================== *)

(** The operations the sketch applies to [float] values.  The sketch is
    written once against this interface; [Float32.ops] below is the
    arithmetic the AVR target really has, [Exact.ops] is arithmetic without
    rounding and is only used to tell rounding effects from logic. *)
Class FloatOps (F : Type) := {
  of_int : Z -> F;            (* conversion int -> float *)
  fadd : F -> F -> F;
  fsub : F -> F -> F;
  fmul : F -> F -> F;
  fdiv : F -> F -> F;
  fabs : F -> F;
  fleb : F -> F -> bool;      (* x <= y *)
  fltb : F -> F -> bool       (* x <  y *)
}.

Module Float32.

(** IEEE-754 binary32: 24 bits of precision, infinities at exponent 128. *)
Definition prec : Z := 24.
Definition emax : Z := 128.

Definition float32 : Type := spec_float.

(** The float nearest to [m * 2^e] (round to nearest, ties to even). *)
Definition scaled (m e : Z) : float32 := binary_normalize prec emax m e false.

Definition is_valid (x : float32) : bool := valid_binary prec emax x.

Definition is_nan (x : float32) : bool :=
  match x with
  | S754_nan => true
  | _ => false
  end.

#[global] Instance ops : FloatOps float32 := {|
  of_int z := scaled z 0;
  fadd := SFadd prec emax;
  fsub := SFsub prec emax;
  fmul := SFmul prec emax;
  fdiv := SFdiv prec emax;
  fabs := SFabs;
  fleb := SFleb;
  fltb := SFltb
|}.

End Float32.

(** Arithmetic without rounding, on the rationals.  Division by zero gives
    zero here; the interpolation never divides by zero on a table with
    distinct [adc] values. *)
Module Exact.

#[global] Instance ops : FloatOps Q := {|
  of_int z := inject_Z z;
  fadd := Qplus;
  fsub := Qminus;
  fmul := Qmult;
  fdiv := Qdiv;
  fabs := Qabs;
  fleb := Qle_bool;
  fltb x y := negb (Qle_bool y x)
|}.

End Exact.

(* ===================================================================== *)
(** ** Calibration table and interpolation *)
(* ===================================================================== *)

Module Lux.

(** Which [return] statement of [calculateLuxFromADC] produced the value. *)
Inductive Branch :=
| ClampLow                 (* line 138 *)
| ClampHigh                (* line 139 *)
| Segment (i : nat)        (* line 149, loop index i *)
| Fallback.                (* line 153 *)

Section WithFloat.
Context {F : Type} `{FloatOps F}.

(** [struct CalibrationPoint { int adc; float lux; }] *)
Record CalibrationPoint := mkPoint { adc : Z; lux : F }.

(** Lines 144-148: the body of the [if] inside the loop, for the pair
    [p = data[i]], [q = data[i+1]]. *)
Definition interpolate (D : Z) (p q : CalibrationPoint) : F :=
  let D1 := of_int (adc p) in
  let E1 := lux p in
  let D2 := of_int (adc q) in
  let E2 := lux q in
  fadd E1 (fmul (fsub E2 E1) (fdiv (fsub (of_int D) D1) (fsub D2 D1))).

(** Lines 142-153: the loop, entered at index [i] with [n] iterations left
    ([n = CalibrationSize - 1 - i]); [&&] evaluates [data[i+1]] only when
    the first test holds.  A read outside the array gives [None]. *)
Fixpoint scan (D : Z) (data : list CalibrationPoint) (i n : nat)
  : option (Branch * F) :=
  match n with
  | O => Some (Fallback, of_int 0)
  | S n' =>
      p ← data !! i;
      if D >=? adc p then
        q ← data !! S i;
        if D <=? adc q then Some (Segment i, interpolate D p q)
        else scan D data (S i) n'
      else scan D data (S i) n'
  end.

(** [calculateLuxFromADC] together with the branch taken.  The global
    [CalibrationSize] is the number of elements of the table. *)
Definition calculateLuxFromADC_traced (D : Z) (data : list CalibrationPoint)
  : option (Branch * F) :=
  let CalibrationSize := length data in
  first ← data !! 0%nat;
  if D <=? adc first then Some (ClampLow, lux first) else
  last ← data !! (CalibrationSize - 1)%nat;
  if D >=? adc last then Some (ClampHigh, lux last) else
  scan D data 0 (CalibrationSize - 1).

(** [float calculateLuxFromADC(int D, const CalibrationPoint* data)] *)
Definition calculateLuxFromADC (D : Z) (data : list CalibrationPoint)
  : option F :=
  snd <$> calculateLuxFromADC_traced D data.

(** The data-model invariants of a table. *)
Fixpoint increasing_adc (data : list CalibrationPoint) : Prop :=
  match data with
  | p :: (q :: _) as rest => adc p < adc q /\ increasing_adc rest
  | _ => True
  end.

Fixpoint increasing_lux (data : list CalibrationPoint) : Prop :=
  match data with
  | p :: (q :: _) as rest =>
      fltb (lux p) (lux q) = true /\ increasing_lux rest
  | _ => True
  end.

(** The function is non-decreasing on the table [data]. *)
Definition monotone (data : list CalibrationPoint) : Prop :=
  forall D1 D2, D1 <= D2 ->
    exists v1 v2,
      calculateLuxFromADC D1 data = Some v1 /\
      calculateLuxFromADC D2 data = Some v2 /\ fleb v1 v2 = true.

(** The values at the [n] inputs [lo], [lo + 1], ... *)
Definition sweep (data : list CalibrationPoint) (lo : Z) (n : nat)
  : option (list F) :=
  mapM (fun k => calculateLuxFromADC (lo + Z.of_nat k) data) (seq 0 n).

(** Every value is [<=] itself and every later value. *)
Fixpoint ordered (vs : list F) : bool :=
  match vs with
  | [] => true
  | v :: vs' => forallb (fleb v) vs && ordered vs'
  end.

Definition monotone_from (data : list CalibrationPoint) (lo : Z) (n : nat)
  : bool :=
  match sweep data lo n with
  | Some vs => ordered vs
  | None => false
  end.

End WithFloat.

Arguments CalibrationPoint F : clear implicits.

(** [const CalibrationPoint CalibrationData[]], lines 52-56.  Every lux
    literal of the table is a whole number, so it is written as the float
    of that integer. *)
Definition CalibrationData : list (CalibrationPoint Float32.float32) :=
  map (fun '(a, l) => mkPoint a (of_int l))
    [ (200, 10); (400, 150); (500, 300); (600, 500);
      (700, 750); (800, 1000); (850, 1200); (900, 1300);
      (950, 1400); (1000, 1500) ].

(** The two-point table {(200, 10.0), (400, 150.0)}, with exact values. *)
Definition two_point_table : list (CalibrationPoint Q) :=
  [ mkPoint 200 (of_int 10); mkPoint 400 (of_int 150) ].

(** A table whose first point is darkness: {(0, 0.0), (100, 50.0)}. *)
Definition dark_table : list (CalibrationPoint Float32.float32) :=
  [ mkPoint 0 (S754_zero false); mkPoint 100 (of_int 50) ].

(** A table that is not sorted and repeats an [adc] value. *)
Definition unsorted_table : list (CalibrationPoint Float32.float32) :=
  [ mkPoint 1 (of_int 1); mkPoint 7 (of_int 2); mkPoint 3 (of_int 4);
    mkPoint 3 (of_int 8); mkPoint 9 (of_int 16) ].

(** A table, increasing in both fields, on which rounding makes the value at
    the middle node come out one float above that node's [lux]. *)
Definition overshoot_table : list (CalibrationPoint Float32.float32) :=
  [ mkPoint 0 (of_int 3); mkPoint 1 (of_int 16777222);
    mkPoint 5 (of_int 16777224) ].

End Lux.

(* ===================================================================== *)
(** ** Accuracy self-test *)
(* ===================================================================== *)

Module SelfTest.
Import Lux.

Section WithFloat.
Context {F : Type} `{FloatOps F}.

(** One printed line of the table (lines 391-402). *)
Record Row := mkRow {
  row_no : Z;
  row_adc : Z;
  referenceLux : F;
  measuredLux : F;
  error : F;
  relativeError : F
}.

(** What the routine prints after the table. *)
Record Report := mkReport {
  rows : list Row;
  maxRelativeError : F;
  avgError : F;
  accuracyClass : string
}.

(** Lines 385-389: the row of point [p] at index [i]. *)
Definition measure (data : list (CalibrationPoint F)) (i : nat)
    (p : CalibrationPoint F) : option Row :=
  measured ← calculateLuxFromADC (adc p) data;
  let err := fsub measured (lux p) in
  let rel := fmul (fdiv err (lux p)) (of_int 100) in
  Some (mkRow (Z.of_nat i + 1) (adc p) (lux p) measured err rel).

(** Lines 384-408: the loop over the points still to visit, carrying
    [maxRelativeError] and [sumRelativeError]; rows are collected in
    printing order. *)
Fixpoint test_loop (data : list (CalibrationPoint F)) (i : nat)
    (todo : list (CalibrationPoint F)) (maxErr sumErr : F)
  : option (list Row * F * F) :=
  match todo with
  | [] => Some ([], maxErr, sumErr)
  | p :: todo' =>
      r ← measure data i p;
      let maxErr' :=
        if fltb (fabs maxErr) (fabs (relativeError r))
        then relativeError r else maxErr in
      let sumErr' := fadd sumErr (fabs (relativeError r)) in
      '(rs, m, s) ← test_loop data (S i) todo' maxErr' sumErr';
      Some (r :: rs, m, s)
  end.

(** Lines 420-430: the accuracy class printed for a maximum error. *)
Definition classify (maxErr : F) : string :=
  if fleb (fabs maxErr) (of_int 1) then "0.5"
  else if fleb (fabs maxErr) (of_int 2) then "1.0"
  else if fleb (fabs maxErr) (of_int 5) then "2.5"
  else "4.0".

(** [void printCalibrationTable()], run on the table [data]. *)
Definition printCalibrationTable (data : list (CalibrationPoint F))
  : option Report :=
  '(rs, maxErr, sumErr) ← test_loop data 0 data (of_int 0) (of_int 0);
  let avg := fdiv sumErr (of_int (Z.of_nat (length data))) in
  Some (mkReport rs maxErr avg (classify maxErr)).

End WithFloat.

Arguments Row F : clear implicits.
Arguments Report F : clear implicits.

End SelfTest.

(* ===================================================================== *)
(** ** Circular log in EEPROM *)
(* ===================================================================== *)

Module Store.
Import Float32.

(** 16-bit integer conversions of the AVR target. *)
Definition to_uint16 (z : Z) : Z := z mod 65536.
Definition to_int16 (z : Z) : Z := (z + 32768) mod 65536 - 32768.

(** A byte is a number in [0, 256). *)
Definition byte : Type := Z.

(** [struct LogEntry { float lux; uint32_t timestamp; char label[21]; }] *)
Record LogEntry := mkLogEntry {
  lux : float32;
  timestamp : Z;
  label : list byte
}.

(** [sizeof(LogEntry)] on AVR: 4 + 4 + 21 bytes, no padding. *)
Definition sizeof_float : Z := 4.
Definition sizeof_uint32 : Z := 4.
Definition label_size : Z := 21.
Definition sizeof_LogEntry : Z := sizeof_float + sizeof_uint32 + label_size.

Definition EEPROM_SIZE : Z := 1024.

(** The four bytes of a 32-bit word, least significant first. *)
Definition word_bytes (w : Z) : list byte :=
  [ w mod 256; (w / 256) mod 256; (w / 65536) mod 256;
    (w / 16777216) mod 256 ].

(** The binary32 encoding of a float (NaN as the default quiet NaN). *)
Definition float_bits (x : float32) : Z :=
  let sign (s : bool) := if s then 2147483648 else 0 in
  match x with
  | S754_zero s => sign s
  | S754_infinity s => sign s + 2139095040
  | S754_nan => 2143289344
  | S754_finite s m e =>
      if Zpos (digits2_pos m) =? prec
      then sign s + (e + 150) * 8388608 + (Zpos m - 8388608)
      else sign s + Zpos m
  end.

(** The 21 bytes of the [label] array. *)
Definition label_bytes (l : list byte) : list byte :=
  take (Z.to_nat label_size) (l ++ replicate (Z.to_nat label_size) 0).

(** The object representation [EEPROM.put] copies. *)
Definition object_bytes (e : LogEntry) : list byte :=
  word_bytes (float_bits (lux e)) ++ word_bytes (timestamp e mod 2 ^ 32)
    ++ label_bytes (label e).

(** The EEPROM contents and the [static int currentAddress]. *)
Record State := mkState {
  eeprom : list byte;
  currentAddress : Z
}.

(** At start-up the store holds whatever was written before the last
    power-down, and the cursor is 0. *)
Definition boot_state (mem : list byte) : State := mkState mem 0.

(** [EEPROM.put(idx, t)]: the bytes of [t] are written one by one from
    [idx] upwards.  A cell outside the store is an error. *)
Fixpoint EEPROM_put (idx : Z) (bytes : list byte) (mem : list byte)
  : option (list byte) :=
  match bytes with
  | [] => Some mem
  | b :: bytes' =>
      if (0 <=? idx) && (idx <? Z.of_nat (length mem))
      then EEPROM_put (idx + 1) bytes' (<[Z.to_nat idx := b]> mem)
      else None
  end.

(** What one call did, besides changing the state. *)
Record Saved := mkSaved {
  was_reset : bool;      (* "EEPROM: Reset to start" was printed *)
  written_at : Z;        (* the address given to [EEPROM.put] *)
  reported : Z           (* the number printed after "Saved at addr" *)
}.

(** Lines 340-343.  [currentAddress + sizeof(entry)] is computed in
    [unsigned int]. *)
Definition overflows (cur : Z) : bool :=
  to_uint16 (cur + sizeof_LogEntry) >=? EEPROM_SIZE.

(** [void saveToEEPROM(const LogEntry& entry)] *)
Definition saveToEEPROM (entry : LogEntry) (st : State)
  : option (State * Saved) :=
  let rst := overflows (currentAddress st) in
  let cur := if rst then 0 else currentAddress st in
  mem ← EEPROM_put cur (object_bytes entry) (eeprom st);
  let cur' := to_int16 (cur + sizeof_LogEntry) in
  Some (mkState mem cur', mkSaved rst cur cur').

(** [vTaskLogger] on the entries received from the queue, in order. *)
Fixpoint vTaskLogger (entries : list LogEntry) (st : State)
  : option (State * list Saved) :=
  match entries with
  | [] => Some (st, [])
  | e :: entries' =>
      '(st1, s) ← saveToEEPROM e st;
      '(st2, ss) ← vTaskLogger entries' st1;
      Some (st2, s :: ss)
  end.

(** The states the static cursor and the store can be in. *)
Inductive reachable : State -> Prop :=
| reach_boot mem :
    Z.of_nat (length mem) = EEPROM_SIZE -> reachable (boot_state mem)
| reach_save st e st' s :
    reachable st -> saveToEEPROM e st = Some (st', s) -> reachable st'.

(** The bytes of the store in [[a, a + n)]. *)
Definition region (a n : Z) (mem : list byte) : list byte :=
  take (Z.to_nat n) (drop (Z.to_nat a) mem).

(** Two entries and an erased store, for examples: the label is
    [strncpy(label, "Manual_Log", 20)]. *)
Definition Manual_Log : list byte :=
  [77; 97; 110; 117; 97; 108; 95; 76; 111; 103].

Definition sample_entry : LogEntry :=
  mkLogEntry (of_int 625) 1700000000 Manual_Log.

Definition later_entry : LogEntry :=
  mkLogEntry (of_int 80) 1700000600 Manual_Log.

Definition erased : list byte := replicate (Z.to_nat EEPROM_SIZE) 255.

(** An offset at which a record starts. *)
Definition record_aligned (a : Z) : Prop :=
  exists k, 0 <= k /\ a = k * sizeof_LogEntry.

(** A whole record at [a] lies inside the store. *)
Definition in_bounds (a : Z) : Prop :=
  0 <= a /\ a + sizeof_LogEntry <= EEPROM_SIZE.

(** The invariant of the log: the store has its size, and the cursor is a
    record boundary inside it. *)
Definition store_inv (st : State) : Prop :=
  Z.of_nat (length (eeprom st)) = EEPROM_SIZE /\
  record_aligned (currentAddress st) /\
  currentAddress st < EEPROM_SIZE.

(** The number of whole records the store holds, the offset at which the
    call number [i] (counted from 0) writes, and the cursor after [n]
    calls. *)
Definition slots : Z := EEPROM_SIZE / sizeof_LogEntry.

Definition slot_of (i : nat) : Z :=
  sizeof_LogEntry * (Z.of_nat i mod slots).

Definition cursor_after (n : nat) : Z :=
  match n with
  | O => 0
  | S i => slot_of i + sizeof_LogEntry
  end.

End Store.

(* ===================================================================== *)
(** ** Keypad task *)
(* ===================================================================== *)

Module Keyboard.

(** [NO_KEY], the value of [keypad.getKey()] when nothing is pressed. *)
Definition NO_KEY : ascii := Ascii.zero.

(** [millis()] is an [unsigned long], 32 bits wide. *)
Definition to_uint32 (z : Z) : Z := z mod 2 ^ 32.
Definition millis (t : Z) : Z := to_uint32 t.

(** The locals [lastKey] and [lastKeyTime] of [vTaskKeyboard]. *)
Record State := mkState { lastKey : ascii; lastKeyTime : Z }.

Definition initial_state : State := mkState NO_KEY 0.

(** One pass of the loop as seen from outside: the key the keypad
    reported, the time (ms since start) of the [millis()] call of line
    259 and the time of the [millis()] call of line 302.  Whatever the
    dispatched command does, including its [vTaskDelay], lies between the
    two. *)
Record Poll := mkPoll { key : ascii; t_poll : Z; t_check : Z }.

(** The commands of the [switch] (lines 264-298). *)
Inductive Command := TimeSet | LogNow | RunSelfTest | Alive | NoCommand.

Definition command_of (k : ascii) : Command :=
  if Ascii.eqb k "A" then TimeSet
  else if Ascii.eqb k "B" then LogNow
  else if Ascii.eqb k "C" then RunSelfTest
  else if Ascii.eqb k "D" then Alive
  else NoCommand.

(** Lines 255-304: one pass of the loop.  Returns the new locals and the
    key that was accepted and dispatched, if any. *)
Definition step (st : State) (p : Poll) : State * option ascii :=
  let accepted := negb (Ascii.eqb (key p) NO_KEY)
                  && negb (Ascii.eqb (key p) (lastKey st)) in
  let st1 := if accepted then mkState (key p) (millis (t_poll p)) else st in
  let st2 :=
    if to_uint32 (millis (t_check p) - lastKeyTime st1) >? 200
    then mkState NO_KEY (lastKeyTime st1) else st1 in
  (st2, if accepted then Some (key p) else None).

(** [vTaskKeyboard] over a sequence of passes of its loop: the keys it
    dispatched, in order. *)
Fixpoint vTaskKeyboard (st : State) (polls : list Poll) : list ascii :=
  match polls with
  | [] => []
  | p :: polls' =>
      let '(st', d) := step st p in
      match d with
      | Some k => k :: vTaskKeyboard st' polls'
      | None => vTaskKeyboard st' polls'
      end
  end.

(** The locals after a sequence of passes. *)
Fixpoint state_after (st : State) (polls : list Poll) : State :=
  match polls with
  | [] => st
  | p :: polls' => state_after (fst (step st p)) polls'
  end.

(** Passes in the order of time: within a pass the check comes after the
    poll, and [vTaskDelay(50)] separates it from the next poll. *)
Fixpoint well_timed (polls : list Poll) : Prop :=
  match polls with
  | [] => True
  | p :: polls' =>
      0 <= t_poll p /\ t_poll p <= t_check p /\
      match polls' with
      | [] => True
      | q :: _ => t_check p + 50 <= t_poll q
      end /\ well_timed polls'
  end.

(** A pass in which key [k] is read at time [t], nothing else happening
    before the check. *)
Definition quick (k : ascii) (t : Z) : Poll := mkPoll k t t.

(** The [vTaskDelay] inside each case of the [switch] (lines 268, 281, 290
    and 296), in ms.  The send of case [B] waits with [portMAX_DELAY], so
    its delay is always taken. *)
Definition dwell (c : Command) : Z :=
  match c with
  | TimeSet => 2000
  | LogNow => 1000
  | RunSelfTest => 2000
  | Alive => 1000
  | NoCommand => 0
  end.

(** A pass that dispatches its key: the check of line 302 comes after the
    delay of the command, and less than 2^32 ms after the poll. *)
Definition dwells (p : Poll) : Prop :=
  0 <= t_poll p /\ t_poll p + dwell (command_of (key p)) <= t_check p /\
  t_check p - t_poll p < 2 ^ 32.

(** The same pass and the same locals, [d] ms later. *)
Definition delay_poll (d : Z) (p : Poll) : Poll :=
  mkPoll (key p) (t_poll p + d) (t_check p + d).

Definition delay_state (d : Z) (st : State) : State :=
  mkState (lastKey st) (to_uint32 (lastKeyTime st + d)).

End Keyboard.

(* ===================================================================== *)
(** ** The log command of the keypad task *)
(* ===================================================================== *)

Module LogCommand.
Import Store.

(** The characters of a C string: the bytes before the first [0]. *)
Fixpoint c_str (bytes : list byte) : list byte :=
  match bytes with
  | [] => []
  | b :: bytes' => if b =? 0 then [] else b :: c_str bytes'
  end.

(** [strncpy(dest, src, n)]: the first [n] bytes of [dest] become the
    characters of [src], cut at [n] or filled up with [0]; the rest of
    [dest] is not touched. *)
Definition strncpy (dest src : list byte) (n : nat) : list byte :=
  take n (c_str src ++ replicate n 0) ++ drop n dest.

(** Lines 273-276: the entry built by case [B].  [logEntry] is a local
    without initialiser, so its [label] starts as whatever the stack held
    ([stack_label], 21 bytes); [adcValue] is the reading of [analogRead]
    and [now] the value of [TotalSeconds()]. *)
Definition make_entry (stack_label : list byte) (adcValue now : Z)
  : option LogEntry :=
  lx ← Lux.calculateLuxFromADC adcValue Lux.CalibrationData;
  Some (mkLogEntry lx now (strncpy stack_label Manual_Log 20)).

End LogCommand.

(* ===================================================================== *)
(** ** Display task *)
(* ===================================================================== *)

Module Display.
Import Float32.

(** [uint8_t] arithmetic. *)
Definition to_uint8 (z : Z) : Z := z mod 256.

(** The locals [lastDisplayTime] and [displayMode] and the static
    [lastSerialPrint] of [vTaskDisplay]. *)
Record State := mkState {
  lastDisplayTime : Z;
  displayMode : Z;
  lastSerialPrint : Z
}.

Definition initial_state : State := mkState 0 0 0.

(** What the LCD is made to show (lines 171-195). *)
Inductive Screen :=
| MainDisplay (lux : float32) (adc : Z)    (* case 0: [showMainDisplay] *)
| AdcValue (adc : Z)                       (* case 1 *)
| TimeOfDay (hour minute second : Z).      (* case 2 *)

Definition mode_of (s : Screen) : Z :=
  match s with
  | MainDisplay _ _ => 0
  | AdcValue _ => 1
  | TimeOfDay _ _ _ => 2
  end.

(** One pass of the loop as seen from outside: the value received from
    the queue, the reading of [analogRead], the time of day the clock
    would give, and the times (ms since start) of the four [millis()]
    calls of lines 168, 197, 203 and 208. *)
Record Pass := mkPass {
  receivedLux : float32;
  adcValue : Z;
  hour : Z;
  minute : Z;
  second : Z;
  t_gate : Z;
  t_stamp : Z;
  t_serial : Z;
  t_serial_stamp : Z
}.

(** Lines 171-195: [switch (displayMode % 3)]. *)
Definition render (mode : Z) (p : Pass) : Screen :=
  let m := mode mod 3 in
  if m =? 0 then MainDisplay (receivedLux p) (adcValue p)
  else if m =? 1 then AdcValue (adcValue p)
  else TimeOfDay (hour p) (minute p) (second p).

(** Lines 164-209: one pass.  Returns the new locals, the screen drawn,
    if any, and the pair printed on the serial line, if any. *)
Definition step (st : State) (p : Pass)
  : State * option Screen * option (float32 * Z) :=
  let draw :=
    Keyboard.to_uint32 (Keyboard.millis (t_gate p) - lastDisplayTime st)
    >? 500 in
  let st1 :=
    if draw
    then mkState (Keyboard.millis (t_stamp p))
           (to_uint8 (displayMode st + 1)) (lastSerialPrint st)
    else st in
  let log :=
    Keyboard.to_uint32 (Keyboard.millis (t_serial p) - lastSerialPrint st1)
    >? 2000 in
  let st2 :=
    if log
    then mkState (lastDisplayTime st1) (displayMode st1)
           (Keyboard.millis (t_serial_stamp p))
    else st1 in
  (st2, if draw then Some (render (displayMode st) p) else None,
   if log then Some (receivedLux p, adcValue p) else None).

(** [vTaskDisplay] over a sequence of passes: the passes that drew, each
    with the screen it drew. *)
Fixpoint vTaskDisplay (st : State) (passes : list Pass)
  : list (Pass * Screen) :=
  match passes with
  | [] => []
  | p :: passes' =>
      let '(st', drawn, _) := step st p in
      match drawn with
      | Some s => (p, s) :: vTaskDisplay st' passes'
      | None => vTaskDisplay st' passes'
      end
  end.

(** Passes in the order of time, all inside a window of less than 2^32 ms
    that starts at [base]. *)
Fixpoint in_order (base : Z) (passes : list Pass) : Prop :=
  match passes with
  | [] => True
  | p :: passes' =>
      base <= t_gate p /\ t_gate p <= t_stamp p /\
      t_stamp p < base + 2 ^ 32 /\
      match passes' with
      | [] => True
      | q :: _ => t_stamp p <= t_gate q
      end /\ in_order base passes'
  end.

(** A pass in which the four [millis()] calls read the same time. *)
Definition at_time (t : Z) : Pass :=
  mkPass (of_int 625) 650 12 34 56 t t t t.

End Display.

(* ===================================================================== *)
(** * Properties of the interpolation *)
(* ===================================================================== *)

Section LuxFacts.
Import Lux.
Context {F : Type} `{FloatOps F}.
Implicit Types (data : list (CalibrationPoint F)) (p q : CalibrationPoint F).
Implicit Types (D : Z) (i j n : nat).

Lemma increasing_adc_tail p data :
  increasing_adc (p :: data) -> increasing_adc data.
Proof. destruct data as [|q data]; [done | by intros [_ ?]]. Qed.

Lemma increasing_adc_head p data j q :
  increasing_adc (p :: data) -> data !! j = Some q -> adc p < adc q.
Proof.
  revert p j. induction data as [|r data IH]; intros p j Hinc Hq; [done|].
  destruct Hinc as [Hpr Hinc]. destruct j as [|j]; simpl in Hq.
  - by inversion Hq; subst.
  - specialize (IH r j Hinc Hq). lia.
Qed.

(** In a table sorted by [adc], a later point has a larger [adc]. *)
Lemma increasing_adc_lookup data i j p q :
  increasing_adc data -> (i < j)%nat ->
  data !! i = Some p -> data !! j = Some q -> adc p < adc q.
Proof.
  revert i j. induction data as [|r data IH]; intros i j Hinc Hij Hp Hq;
    [done|].
  destruct j as [|j]; [lia|]. destruct i as [|i]; simpl in Hp, Hq.
  - inversion Hp; subst. by eapply increasing_adc_head.
  - eapply (IH i j); eauto using increasing_adc_tail. lia.
Qed.

(** The loop invariant of the scan: on entry at index [i] the input is at
    least [data[i].adc].  As long as the input is below the last [adc],
    the loop returns from inside, at the first pair that brackets it. *)
Lemma scan_finds_segment D data n i p plast :
  (i + n = length data - 1)%nat ->
  data !! i = Some p -> adc p <= D ->
  data !! (length data - 1)%nat = Some plast -> D < adc plast ->
  exists j pj qj,
    scan D data i n = Some (Segment j, interpolate D pj qj) /\
    (i <= j)%nat /\ data !! j = Some pj /\ data !! S j = Some qj /\
    adc pj <= D <= adc qj.
Proof.
  revert i p. induction n as [|n IH]; intros i p Hlen Hp HpD Hlast HD.
  - replace (length data - 1)%nat with i in Hlast by lia.
    rewrite Hp in Hlast. inversion Hlast; subst. lia.
  - destruct (lookup_lt_is_Some_2 data (S i)) as [q Hq].
    { apply lookup_lt_Some in Hlast. lia. }
    cbn [scan]. rewrite Hp. cbn. rewrite Z.geb_leb.
    rewrite (proj2 (Z.leb_le _ _) HpD). rewrite Hq. cbn.
    destruct (D <=? adc q) eqn:HDq.
    + apply Z.leb_le in HDq. exists i, p, q. repeat split; auto; lia.
    + apply Z.leb_gt in HDq.
      destruct (IH (S i) q) as (j & pj & qj & Hs & Hij & Hrest); auto;
        [lia | lia |].
      exists j, pj, qj. split; [exact Hs|]. split; [lia | exact Hrest].
Qed.

(** C5.  Clamp low: an input at or below the first point's [adc] gives
    exactly the first point's [lux]. *)
Theorem clamp_low data p0 D :
  data !! 0%nat = Some p0 -> D <= adc p0 ->
  calculateLuxFromADC D data = Some (lux p0).
Proof.
  intros Hp0 HD. unfold calculateLuxFromADC, calculateLuxFromADC_traced.
  rewrite Hp0. cbn. by rewrite (proj2 (Z.leb_le _ _) HD).
Qed.

(** C6.  Clamp high: on a table sorted by strictly increasing [adc], an
    input at or above the last point's [adc] gives exactly the last
    point's [lux]. *)
Theorem clamp_high data plast D :
  increasing_adc data ->
  data !! (length data - 1)%nat = Some plast -> adc plast <= D ->
  calculateLuxFromADC D data = Some (lux plast).
Proof.
  intros Hinc Hlast HD.
  destruct (lookup_lt_is_Some_2 data 0) as [p0 Hp0].
  { apply lookup_lt_Some in Hlast. lia. }
  unfold calculateLuxFromADC, calculateLuxFromADC_traced.
  rewrite Hp0. cbn. destruct (D <=? adc p0) eqn:Hlow.
  - apply Z.leb_le in Hlow. cbn.
    destruct (decide (length data - 1 = 0)%nat) as [Hone|Hmore].
    + rewrite Hone, Hp0 in Hlast. by inversion Hlast.
    + assert (adc p0 < adc plast); [|lia].
      eapply (increasing_adc_lookup data 0 (length data - 1)); eauto. lia.
  - rewrite Hlast. cbn. rewrite Z.geb_leb.
    by rewrite (proj2 (Z.leb_le _ _) HD).
Qed.

(** The three ways the function returns on a non-empty table. *)
Lemma traced_cases data D p0 plast :
  data !! 0%nat = Some p0 ->
  data !! (length data - 1)%nat = Some plast ->
  (D <= adc p0 /\
   calculateLuxFromADC_traced D data = Some (ClampLow, lux p0)) \/
  (adc p0 < D /\ adc plast <= D /\
   calculateLuxFromADC_traced D data = Some (ClampHigh, lux plast)) \/
  (adc p0 < D < adc plast /\
   exists i p q,
     calculateLuxFromADC_traced D data
     = Some (Segment i, interpolate D p q) /\
     data !! i = Some p /\ data !! S i = Some q /\ adc p <= D <= adc q).
Proof.
  intros Hp0 Hpl. unfold calculateLuxFromADC_traced. rewrite Hp0. cbn.
  destruct (D <=? adc p0) eqn:Hlow.
  { apply Z.leb_le in Hlow. by left. }
  apply Z.leb_gt in Hlow. rewrite Hpl. cbn. rewrite Z.geb_leb.
  destruct (adc plast <=? D) eqn:Hhigh.
  { apply Z.leb_le in Hhigh. right; left. by repeat split. }
  apply Z.leb_gt in Hhigh. right; right. split; [lia|].
  destruct (scan_finds_segment D data (length data - 1) 0 p0 plast)
    as (j & pj & qj & Hs & _ & Hj & HSj & Hbr); auto; [lia|].
  by exists j, pj, qj.
Qed.

(** On a non-empty table the function returns for every input. *)
Lemma calculateLuxFromADC_total data D :
  data <> [] -> exists v, calculateLuxFromADC D data = Some v.
Proof.
  intros Hne.
  destruct (lookup_lt_is_Some_2 data 0) as [p0 Hp0];
    [destruct data; [done | cbn; lia]|].
  destruct (lookup_lt_is_Some_2 data (length data - 1)) as [pl Hpl];
    [destruct data; [done | cbn; lia]|].
  unfold calculateLuxFromADC.
  destruct (traced_cases data D p0 pl Hp0 Hpl)
    as [[_ Hrun] | [(_ & _ & Hrun) | (_ & i & p & q & Hrun & _)]];
    rewrite Hrun; by eexists.
Qed.

(** C10.  On a table of at least two points sorted by strictly increasing
    [adc], no input reaches the final [return 0.0]; an input strictly
    between the first and the last [adc] returns from inside the loop, at
    an adjacent pair that brackets it. *)
Theorem fallback_unreachable data D :
  (2 <= length data)%nat -> increasing_adc data ->
  exists b v,
    calculateLuxFromADC_traced D data = Some (b, v) /\ b <> Fallback /\
    forall p0 plast,
      data !! 0%nat = Some p0 ->
      data !! (length data - 1)%nat = Some plast ->
      adc p0 < D < adc plast ->
      exists i p q,
        b = Segment i /\ data !! i = Some p /\ data !! S i = Some q /\
        adc p <= D <= adc q /\ v = interpolate D p q.
Proof.
  intros Hlen _.
  destruct (lookup_lt_is_Some_2 data 0) as [p0 Hp0]; [lia|].
  destruct (lookup_lt_is_Some_2 data (length data - 1)) as [pl Hpl]; [lia|].
  destruct (traced_cases data D p0 pl Hp0 Hpl)
    as [[Hlow Hrun] | [(Hlow & Hhigh & Hrun) | (Hmid & i & p & q & Hrun & Hi)]];
    rewrite Hrun; eexists _, _; (split; [reflexivity|]); (split; [done|]);
    intros q0 ql Hq0 Hql Hbetween; simplify_eq; try lia.
  exists i, p, q. by destruct Hi as (? & ? & ?).
Qed.

End LuxFacts.

(** Witnesses on the built-in table. *)
Lemma clamp_low_witness :
  Lux.calculateLuxFromADC 150 Lux.CalibrationData = Some (of_int 10).
Proof.
  apply (clamp_low Lux.CalibrationData (Lux.mkPoint 200 (of_int 10)) 150);
    [reflexivity | cbn; lia].
Defined.

Lemma clamp_high_witness :
  Lux.calculateLuxFromADC 1023 Lux.CalibrationData = Some (of_int 1500).
Proof.
  apply (clamp_high Lux.CalibrationData (Lux.mkPoint 1000 (of_int 1500)) 1023);
    [ cbn; lia | reflexivity | cbn; lia ].
Defined.

Lemma fallback_unreachable_witness :
  exists b v,
    Lux.calculateLuxFromADC_traced 650 Lux.CalibrationData = Some (b, v) /\
    b <> Lux.Fallback.
Proof.
  destruct (fallback_unreachable Lux.CalibrationData 650)
    as (b & v & Hrun & Hb & _); [cbn; lia | cbn; lia |].
  by exists b, v.
Defined.

Section BuiltinTable.
Import Lux Float32.
Implicit Types (D : Z).

(** The worked example of the calibration: 650 lies half-way between
    (600, 500.0) and (700, 750.0). *)
Example interpolate_650 :
  calculateLuxFromADC_traced 650 CalibrationData
  = Some (Segment 3, of_int 625).
Proof. reflexivity. Qed.

Example interpolate_two_point_table :
  calculateLuxFromADC 300 [mkPoint 200 (of_int 10); mkPoint 400 (of_int 150)]
  = Some (of_int 80 : float32).
Proof. reflexivity. Qed.

(** The order of the two clamp tests shows on a table that breaks the
    data-model invariant: with equal [adc] values the first test wins. *)
Example clamp_order_on_duplicate_adc :
  calculateLuxFromADC 5 [mkPoint 5 (of_int 1); mkPoint 5 (of_int 2)]
  = Some (of_int 1 : float32).
Proof. reflexivity. Qed.

(** C1.  On the built-in table the function returns, at the [adc] of every
    calibration point, exactly the [lux] of that point; hence every row of
    the self-test has error zero, and so are the maximum and the mean. *)
Theorem nodes_exact :
  Forall (fun p => calculateLuxFromADC (adc p) CalibrationData = Some (lux p))
    CalibrationData /\
  exists rep,
    SelfTest.printCalibrationTable CalibrationData = Some rep /\
    length (SelfTest.rows rep) = length CalibrationData /\
    Forall (fun r => SelfTest.measuredLux r = SelfTest.referenceLux r /\
                     SelfTest.error r = S754_zero false /\
                     SelfTest.relativeError r = S754_zero false)
      (SelfTest.rows rep) /\
    SelfTest.maxRelativeError rep = S754_zero false /\
    SelfTest.avgError rep = S754_zero false.
Proof.
  split.
  - repeat (constructor; [vm_compute; reflexivity|]). constructor.
  - eexists. split; [vm_compute; reflexivity|].
    split; [reflexivity|]. split; [|split; reflexivity].
    repeat (constructor; [repeat split|]). constructor.
Qed.

End BuiltinTable.

(* ===================================================================== *)
(** * Monotonicity *)
(* ===================================================================== *)

Section Sweep.
Import Lux.
Context {F : Type} `{FloatOps F}.
Implicit Types (data : list (CalibrationPoint F)) (vs : list F).

Lemma ordered_lookup vs i j a b :
  ordered vs = true -> (i <= j)%nat ->
  vs !! i = Some a -> vs !! j = Some b -> fleb a b = true.
Proof.
  revert i j. induction vs as [|v vs IH]; intros i j Hord Hij Ha Hb; [done|].
  cbn [ordered] in Hord. apply andb_true_iff in Hord as [Hv Hord].
  destruct i as [|i].
  - simpl in Ha. inversion Ha; subst a.
    eapply forallb_forall; [exact Hv|].
    apply list_elem_of_In. by eapply list_elem_of_lookup_2.
  - destruct j as [|j]; [lia|]. simpl in Ha, Hb.
    eapply (IH i j); eauto. lia.
Qed.

Lemma sweep_lookup data lo n vs k :
  sweep data lo n = Some vs -> (k < n)%nat ->
  exists v, vs !! k = Some v /\
            calculateLuxFromADC (lo + Z.of_nat k) data = Some v.
Proof.
  intros Hs Hk. apply mapM_Some in Hs.
  eapply Forall2_lookup_l in Hs as (v & Hv & Hf);
    [|by apply (lookup_seq_lt 0 n k)].
  exists v. by split.
Qed.

(** A successful sweep certifies monotonicity on the swept inputs. *)
Lemma monotone_from_sound data lo n k1 k2 :
  monotone_from data lo n = true -> (k1 <= k2 < n)%nat ->
  exists v1 v2,
    calculateLuxFromADC (lo + Z.of_nat k1) data = Some v1 /\
    calculateLuxFromADC (lo + Z.of_nat k2) data = Some v2 /\
    fleb v1 v2 = true.
Proof.
  unfold monotone_from. destruct (sweep data lo n) as [vs|] eqn:Hs; [|done].
  intros Hord [H12 H2].
  destruct (sweep_lookup data lo n vs k1 Hs) as (v1 & Hv1 & Hf1); [lia|].
  destruct (sweep_lookup data lo n vs k2 Hs) as (v2 & Hv2 & Hf2); [lia|].
  exists v1, v2. split; [exact Hf1|]. split; [exact Hf2|].
  exact (ordered_lookup vs k1 k2 v1 v2 Hord H12 Hv1 Hv2).
Qed.

End Sweep.

Section BuiltinMonotone.
Import Lux Float32.

(** Outside [200, 1000] the built-in table gives the value of the nearer
    end of that interval. *)
Lemma builtin_clamped D :
  calculateLuxFromADC D CalibrationData
  = calculateLuxFromADC
      (200 + Z.of_nat (Z.to_nat (Z.max 200 (Z.min 1000 D) - 200)))
      CalibrationData.
Proof.
  destruct (Z_le_gt_dec D 200) as [Hlo|Hlo].
  - rewrite (clamp_low CalibrationData (mkPoint 200 (of_int 10)) D);
      [|reflexivity|exact Hlo].
    replace (Z.max 200 (Z.min 1000 D)) with 200 by lia. reflexivity.
  - destruct (Z_le_gt_dec 1000 D) as [Hhi|Hhi].
    + rewrite (clamp_high CalibrationData (mkPoint 1000 (of_int 1500)) D);
        [|cbn; lia|reflexivity|exact Hhi].
      replace (Z.max 200 (Z.min 1000 D)) with 1000 by lia. reflexivity.
    + f_equal. lia.
Qed.

Lemma builtin_sweep : monotone_from CalibrationData 200 801 = true.
Proof. vm_compute. reflexivity. Qed.

(** On the built-in table the function is non-decreasing in binary32
    arithmetic: for all integers [D1 <= D2] both calls return, and the first
    value is [<=] the second. *)
Lemma builtin_monotone_binary32 : monotone CalibrationData.
Proof.
  intros D1 D2 Hle. rewrite (builtin_clamped D1), (builtin_clamped D2).
  apply (monotone_from_sound CalibrationData 200 801);
    [exact builtin_sweep | lia].
Qed.

(** C4 as stated fails: [overshoot_table] is strictly increasing in [adc]
    and in [lux], all its values are binary32 numbers, and yet the value
    at input 1 is larger than the value at input 2.  At the node 1 the
    loop takes the pair (0, 1): 16777222 - 3 rounds to 16777220 and
    3 + 16777220 rounds to 16777224. *)
Lemma monotone_fails_by_rounding :
  increasing_adc overshoot_table /\ increasing_lux overshoot_table /\
  Forall (fun p => is_valid (lux p) = true) overshoot_table /\
  calculateLuxFromADC 1 overshoot_table = Some (of_int 16777224) /\
  calculateLuxFromADC 2 overshoot_table = Some (of_int 16777222) /\
  fleb (of_int 16777224 : float32) (of_int 16777222) = false /\
  ~ monotone overshoot_table.
Proof.
  split; [cbn; lia|]. split; [by cbn|].
  split; [repeat constructor|].
  split; [reflexivity|]. split; [reflexivity|]. split; [reflexivity|].
  intros Hm. destruct (Hm 1 2) as (v1 & v2 & H1 & H2 & Hle); [lia|].
  vm_compute in H1, H2. inversion H1; inversion H2; subst. discriminate Hle.
Qed.

End BuiltinMonotone.

(** Without rounding the function is monotone on every table that is
    strictly increasing in both fields: the failure above comes from the
    arithmetic, not from the scan. *)
Section ExactMonotone.
Import Lux.
Implicit Types (data : list (CalibrationPoint Q)) (p q : CalibrationPoint Q).
Implicit Types (D : Z).

Lemma increasing_lux_tail p data :
  increasing_lux (p :: data) -> increasing_lux data.
Proof. destruct data as [|q data]; [done | by intros [_ ?]]. Qed.

Lemma exact_fltb (x y : Q) : fltb x y = true -> (x < y)%Q.
Proof.
  cbn. intros Hlt. apply Qnot_le_lt. intros Hle.
  apply Qle_bool_iff in Hle. by rewrite Hle in Hlt.
Qed.

Lemma increasing_lux_head p data j q :
  increasing_lux (p :: data) -> data !! j = Some q -> (lux p < lux q)%Q.
Proof.
  revert p j. induction data as [|r data IH]; intros p j Hinc Hq; [done|].
  destruct Hinc as [Hpr Hinc]. apply exact_fltb in Hpr.
  destruct j as [|j]; simpl in Hq.
  - by inversion Hq; subst.
  - specialize (IH r j Hinc Hq). lra.
Qed.

Lemma increasing_lux_lookup data i j p q :
  increasing_lux data -> (i <= j)%nat ->
  data !! i = Some p -> data !! j = Some q -> (lux p <= lux q)%Q.
Proof.
  revert i j. induction data as [|r data IH]; intros i j Hinc Hij Hp Hq;
    [done|].
  destruct i as [|i]; simpl in Hp.
  - inversion Hp; subst. destruct j as [|j]; simpl in Hq.
    + inversion Hq; subst. lra.
    + apply Qlt_le_weak. by eapply increasing_lux_head.
  - destruct j as [|j]; [lia|]. simpl in Hq.
    eapply (IH i j); eauto using increasing_lux_tail. lia.
Qed.

(** The fraction of the segment covered by [D]. *)
Lemma fraction_bounds (a b D : Z) :
  a < b -> a <= D <= b ->
  (0 <= (inject_Z D - inject_Z a) / (inject_Z b - inject_Z a) <= 1)%Q.
Proof.
  intros Hab [HaD HDb].
  rewrite Zlt_Qlt in Hab. rewrite Zle_Qle in HaD, HDb. split.
  - apply Qle_shift_div_l; lra.
  - apply Qle_shift_div_r; lra.
Qed.

Lemma fraction_mono (a b D1 D2 : Z) :
  a < b -> D1 <= D2 ->
  ((inject_Z D1 - inject_Z a) / (inject_Z b - inject_Z a)
   <= (inject_Z D2 - inject_Z a) / (inject_Z b - inject_Z a))%Q.
Proof.
  intros Hab H12. rewrite Zlt_Qlt in Hab. rewrite Zle_Qle in H12.
  unfold Qdiv. apply Qmult_le_compat_r; [lra|].
  apply Qinv_le_0_compat. lra.
Qed.

(** Inside a segment the value lies between the two [lux] values. *)
Lemma interpolate_bounds p q D :
  adc p < adc q -> (lux p <= lux q)%Q -> adc p <= D <= adc q ->
  (lux p <= interpolate D p q <= lux q)%Q.
Proof.
  intros Hadc Hlux HD. unfold interpolate. cbn.
  pose proof (fraction_bounds (adc p) (adc q) D Hadc HD) as Ht.
  set (t := ((inject_Z D - inject_Z (adc p))
             / (inject_Z (adc q) - inject_Z (adc p)))%Q) in *.
  clearbody t. nra.
Qed.

Lemma interpolate_mono p q D1 D2 :
  adc p < adc q -> (lux p <= lux q)%Q -> D1 <= D2 ->
  (interpolate D1 p q <= interpolate D2 p q)%Q.
Proof.
  intros Hadc Hlux H12. unfold interpolate. cbn.
  pose proof (fraction_mono (adc p) (adc q) D1 D2 Hadc H12) as Ht.
  set (t1 := ((inject_Z D1 - inject_Z (adc p))
              / (inject_Z (adc q) - inject_Z (adc p)))%Q) in *.
  set (t2 := ((inject_Z D2 - inject_Z (adc p))
              / (inject_Z (adc q) - inject_Z (adc p)))%Q) in *.
  clearbody t1 t2. nra.
Qed.

(** Every [lux] of the table lies between the first and the last. *)
Lemma table_lux_bounds data i p p0 plast :
  increasing_lux data ->
  data !! 0%nat = Some p0 -> data !! (length data - 1)%nat = Some plast ->
  data !! i = Some p -> (lux p0 <= lux p <= lux plast)%Q.
Proof.
  intros Hlux Hp0 Hpl Hp. pose proof (lookup_lt_Some _ _ _ Hp) as Hi. split.
  - eapply (increasing_lux_lookup data 0 i); eauto. lia.
  - eapply (increasing_lux_lookup data i (length data - 1)); eauto. lia.
Qed.

(** The value at an input inside a segment, with its bounds. *)
Lemma segment_value data i p q D :
  increasing_adc data -> increasing_lux data ->
  data !! i = Some p -> data !! S i = Some q -> adc p <= D <= adc q ->
  adc p < adc q /\ (lux p <= lux q)%Q /\
  (lux p <= interpolate D p q <= lux q)%Q.
Proof.
  intros Hadc Hlux Hp Hq HD.
  assert (adc p < adc q) as Hpq
    by (eapply (increasing_adc_lookup data i (S i)); eauto).
  assert (lux p <= lux q)%Q as Hlpq
    by (eapply (increasing_lux_lookup data i (S i)); eauto).
  split; [exact Hpq|]. split; [exact Hlpq|]. by apply interpolate_bounds.
Qed.

(** In exact arithmetic, on every non-empty table strictly increasing in
    [adc] and in [lux], the function is non-decreasing. *)
Lemma exact_monotone data :
  data <> [] -> increasing_adc data -> increasing_lux data -> monotone data.
Proof.
  intros Hne Hadc Hlux D1 D2 H12.
  destruct (lookup_lt_is_Some_2 data 0) as [p0 Hp0];
    [destruct data; [done | cbn; lia]|].
  destruct (lookup_lt_is_Some_2 data (length data - 1)) as [pl Hpl];
    [destruct data; [done | cbn; lia]|].
  pose proof (table_lux_bounds data 0 p0 p0 pl Hlux Hp0 Hpl Hp0) as Hends.
  unfold calculateLuxFromADC.
  destruct (traced_cases data D1 p0 pl Hp0 Hpl)
    as [[Hlo1 Hrun1]
       | [(Hlo1 & Hhi1 & Hrun1) | (Hmid1 & i1 & p1 & q1 & Hrun1 & Hi1)]];
    destruct (traced_cases data D2 p0 pl Hp0 Hpl)
    as [[Hlo2 Hrun2]
       | [(Hlo2 & Hhi2 & Hrun2) | (Hmid2 & i2 & p2 & q2 & Hrun2 & Hi2)]];
    try lia; rewrite Hrun1, Hrun2; cbn [fmap option_fmap option_map snd];
    eexists _, _; (split; [reflexivity|]); (split; [reflexivity|]);
    apply Qle_bool_iff.
  - (* both clamped low *) lra.
  - (* low, high *) lra.
  - (* low, inside *)
    destruct Hi2 as (Hp2 & Hq2 & Hbr2).
    pose proof (segment_value data i2 p2 q2 D2 Hadc Hlux Hp2 Hq2 Hbr2)
      as (_ & _ & Hv2).
    pose proof (table_lux_bounds data i2 p2 p0 pl Hlux Hp0 Hpl Hp2). lra.
  - (* both clamped high *) lra.
  - (* inside, high *)
    destruct Hi1 as (Hp1 & Hq1 & Hbr1).
    pose proof (segment_value data i1 p1 q1 D1 Hadc Hlux Hp1 Hq1 Hbr1)
      as (_ & _ & Hv1).
    pose proof (table_lux_bounds data (S i1) q1 p0 pl Hlux Hp0 Hpl Hq1). lra.
  - (* both inside *)
    destruct Hi1 as (Hp1 & Hq1 & Hbr1). destruct Hi2 as (Hp2 & Hq2 & Hbr2).
    pose proof (segment_value data i1 p1 q1 D1 Hadc Hlux Hp1 Hq1 Hbr1)
      as (Hadc1 & Hlux1 & Hv1).
    pose proof (segment_value data i2 p2 q2 D2 Hadc Hlux Hp2 Hq2 Hbr2)
      as (_ & _ & Hv2).
    destruct (lt_eq_lt_dec i1 i2) as [[Hlt | ->] | Hgt].
    + (* a later segment *)
      pose proof (increasing_lux_lookup data (S i1) i2 q1 p2 Hlux) as Hstep.
      specialize (Hstep ltac:(lia) Hq1 Hp2). lra.
    + (* the same segment *)
      simplify_eq. by apply interpolate_mono.
    + (* an earlier segment: then D1 = D2, on a node *)
      assert (adc q2 <= adc p1) as Hnode.
      { destruct (decide (S i2 = i1)) as [<-|Hne']; [by simplify_eq|].
        apply Z.lt_le_incl.
        eapply (increasing_adc_lookup data (S i2) i1); eauto. lia. }
      assert (D1 = D2) as -> by lia.
      rewrite Hrun1 in Hrun2. simplify_eq. lia.
Qed.

End ExactMonotone.

Section MonotoneSummary.
Import Lux.

(** C4, as it holds on the code.  Monotonicity holds (1) on the built-in
    table in the binary32 arithmetic of the target, for all integers
    [D1 <= D2], and (2) on every non-empty table strictly increasing in
    [adc] and in [lux] when the arithmetic is exact.  In binary32 it can
    fail on other tables, see [monotone_fails_by_rounding]. *)
Theorem monotone_builtin_and_exact :
  monotone CalibrationData /\
  forall data : list (CalibrationPoint Q),
    data <> [] -> increasing_adc data -> increasing_lux data ->
    monotone data.
Proof.
  split; [exact builtin_monotone_binary32 | exact exact_monotone].
Qed.

End MonotoneSummary.

Lemma monotone_builtin_and_exact_witness :
  (exists v1 v2,
     Lux.calculateLuxFromADC 640 Lux.CalibrationData = Some v1 /\
     Lux.calculateLuxFromADC 650 Lux.CalibrationData = Some v2 /\
     fleb v1 v2 = true) /\
  (exists v1 v2,
     Lux.calculateLuxFromADC 250 Lux.two_point_table = Some v1 /\
     Lux.calculateLuxFromADC 300 Lux.two_point_table = Some v2 /\
     fleb v1 v2 = true).
Proof.
  destruct monotone_builtin_and_exact as [Hbuiltin Hexact]. split.
  - apply (Hbuiltin 640 650). lia.
  - apply (Hexact Lux.two_point_table); [discriminate | cbn; lia | by cbn | lia].
Defined.

(* ===================================================================== *)
(** * The circular log *)
(* ===================================================================== *)

Section StoreFacts.
Import Store.
Implicit Types (st : State) (e : LogEntry) (mem bytes : list byte).

Lemma sizeof_LogEntry_eq : sizeof_LogEntry = 29.
Proof. reflexivity. Qed.


Lemma EEPROM_SIZE_eq : EEPROM_SIZE = 1024.
Proof. reflexivity. Qed.

Lemma length_object_bytes e :
  Z.of_nat (length (object_bytes e)) = sizeof_LogEntry.
Proof.
  unfold object_bytes, label_bytes.
  rewrite !length_app, length_take, length_app, length_replicate.
  rewrite sizeof_LogEntry_eq. change (Z.to_nat label_size) with 21%nat.
  cbn [length word_bytes]. lia.
Qed.

(** [EEPROM.put] inside the store replaces exactly the cells it covers. *)
Lemma EEPROM_put_inside bytes : forall idx mem,
  0 <= idx -> idx + Z.of_nat (length bytes) <= Z.of_nat (length mem) ->
  EEPROM_put idx bytes mem
  = Some (take (Z.to_nat idx) mem ++ bytes
            ++ drop (Z.to_nat idx + length bytes) mem).
Proof.
  induction bytes as [|b bytes IH]; intros idx mem Hidx Hfit.
  - cbn. by rewrite Nat.add_0_r, take_drop.
  - cbn [EEPROM_put]. cbn [length] in Hfit.
    replace ((0 <=? idx) && (idx <? Z.of_nat (length mem))) with true
      by (symmetry; apply andb_true_iff; split;
          [apply Z.leb_le | apply Z.ltb_lt]; lia).
    rewrite IH; rewrite ?length_insert; [|lia|lia].
    replace (Z.to_nat (idx + 1)) with (S (Z.to_nat idx)) by lia.
    rewrite (take_S_r _ _ b) by (apply list_lookup_insert_eq; lia).
    rewrite take_insert_ge by lia. rewrite drop_insert_lt by lia.
    rewrite <- app_assoc. cbn [length].
    by replace (S (Z.to_nat idx) + length bytes)%nat
      with (Z.to_nat idx + S (length bytes))%nat by lia.
Qed.

(** An out-of-range [EEPROM.put] of at least one byte fails. *)
Lemma EEPROM_put_outside bytes : forall idx mem,
  bytes <> [] ->
  idx < 0 \/ Z.of_nat (length mem) < idx + Z.of_nat (length bytes) ->
  EEPROM_put idx bytes mem = None.
Proof.
  induction bytes as [|b bytes IH]; intros idx mem Hne Hout; [done|].
  cbn [EEPROM_put]. cbn [length] in Hout.
  destruct ((0 <=? idx) && (idx <? Z.of_nat (length mem))) eqn:Hin; [|done].
  apply andb_true_iff in Hin as [H0 H1].
  apply Z.leb_le in H0. apply Z.ltb_lt in H1.
  destruct bytes as [|b' bytes]; [cbn [length] in Hout; lia|].
  apply IH; [done|]. rewrite length_insert. right. lia.
Qed.

Lemma region_written a bytes mem :
  (a <= length mem)%nat ->
  region (Z.of_nat a) (Z.of_nat (length bytes))
    (take a mem ++ bytes ++ drop (a + length bytes) mem) = bytes.
Proof.
  intros Ha. unfold region. rewrite !Nat2Z.id.
  rewrite drop_app_length' by (rewrite length_take; lia).
  by rewrite take_app_length.
Qed.

Lemma region_kept a bytes mem n :
  (n <= a)%nat -> (a <= length mem)%nat ->
  region 0 (Z.of_nat n) (take a mem ++ bytes ++ drop (a + length bytes) mem)
  = region 0 (Z.of_nat n) mem.
Proof.
  intros Hn Ha. unfold region. rewrite Nat2Z.id.
  change (Z.to_nat 0) with 0%nat. rewrite !drop_0.
  rewrite take_app_le by (rewrite length_take; lia).
  rewrite take_take. f_equal. lia.
Qed.

(** What one call does from a state that satisfies the invariant. *)
Lemma saveToEEPROM_inv e st :
  store_inv st ->
  let rst := EEPROM_SIZE <=? currentAddress st + sizeof_LogEntry in
  let cur := if rst then 0 else currentAddress st in
  let mem' := take (Z.to_nat cur) (eeprom st) ++ object_bytes e
                ++ drop (Z.to_nat cur + length (object_bytes e)) (eeprom st) in
  saveToEEPROM e st
  = Some (mkState mem' (cur + sizeof_LogEntry),
          mkSaved rst cur (cur + sizeof_LogEntry)) /\
  in_bounds cur /\ record_aligned cur /\
  store_inv (mkState mem' (cur + sizeof_LogEntry)).
Proof.
  intros (Hlen & (k & Hk & Hcur) & Hlt). cbn zeta.
  pose proof (length_object_bytes e) as Hobj.
  unfold in_bounds, record_aligned, store_inv.
  rewrite sizeof_LogEntry_eq, EEPROM_SIZE_eq in *.
  unfold saveToEEPROM, overflows, to_uint16.
  rewrite sizeof_LogEntry_eq, EEPROM_SIZE_eq.
  rewrite Z.mod_small by lia. rewrite Z.geb_leb.
  set (rst := 1024 <=? currentAddress st + 29).
  set (cur := if rst then 0 else currentAddress st).
  assert (0 <= cur /\ cur + 29 <= 1024 /\ exists j, 0 <= j /\ cur = j * 29)
    as (Hc0 & Hc1 & Hal).
  { subst cur rst. destruct (1024 <=? currentAddress st + 29) eqn:Hr.
    - split; [lia|]. split; [lia|]. exists 0. lia.
    - apply Z.leb_gt in Hr. split; [lia|]. split; [lia|]. exists k. lia. }
  clearbody cur rst. set (ob := object_bytes e) in *. clearbody ob.
  rewrite EEPROM_put_inside by lia. cbn.
  unfold to_int16. rewrite (Z.mod_small (cur + 29 + 32768)) by lia.
  replace (cur + 29 + 32768 - 32768) with (cur + 29) by lia.
  split; [reflexivity|]. split; [lia|].
  split; [exact Hal|].
  destruct Hal as (j & Hj & Hcj).
  split; [|split].
  - rewrite !length_app, length_take, length_drop. clear Hcur Hcj. lia.
  - exists (j + 1). rewrite ?sizeof_LogEntry_eq. lia.
  - lia.
Qed.

Lemma run_logger_cons e entries st st1 s st2 ss :
  saveToEEPROM e st = Some (st1, s) ->
  vTaskLogger entries st1 = Some (st2, ss) ->
  vTaskLogger (e :: entries) st = Some (st2, s :: ss).
Proof. intros H1 H2. cbn [vTaskLogger]. rewrite H1. cbn. by rewrite H2. Qed.

Lemma run_logger_app entries1 entries2 : forall st,
  vTaskLogger (entries1 ++ entries2) st
  = match vTaskLogger entries1 st with
    | Some (st1, ss1) =>
        match vTaskLogger entries2 st1 with
        | Some (st2, ss2) => Some (st2, ss1 ++ ss2)
        | None => None
        end
    | None => None
    end.
Proof.
  induction entries1 as [|e entries1 IH]; intros st; cbn [app vTaskLogger].
  - by destruct (vTaskLogger entries2 st) as [[? ?]|].
  - destruct (saveToEEPROM e st) as [[st1 s]|]; cbn; [|done].
    rewrite IH. destruct (vTaskLogger entries1 st1) as [[st2 ss]|]; cbn;
      [|done].
    by destruct (vTaskLogger entries2 st2) as [[? ?]|].
Qed.

Lemma boot_state_inv mem :
  Z.of_nat (length mem) = EEPROM_SIZE -> store_inv (boot_state mem).
Proof.
  intros Hlen. split; [exact Hlen|]. split; [|by cbn].
  exists 0. cbn. lia.
Qed.

(** Every state the log can be in satisfies the invariant. *)
Lemma reachable_inv st : reachable st -> store_inv st.
Proof.
  induction 1 as [mem Hlen | st e st' s _ IH Hsave].
  - by apply boot_state_inv.
  - destruct (saveToEEPROM_inv e st IH) as (Hrun & _ & _ & Hinv).
    rewrite Hrun in Hsave. by inversion Hsave; subst.
Qed.

(** While the records still fit, the cursor only moves forward and the
    first record is left alone. *)
Lemma run_logger_no_wrap entries : forall st k,
  store_inv st -> 0 <= k -> currentAddress st = k * 29 ->
  k + Z.of_nat (length entries) <= 35 ->
  exists st' ss,
    vTaskLogger entries st = Some (st', ss) /\ store_inv st' /\
    currentAddress st' = (k + Z.of_nat (length entries)) * 29 /\
    Forall (fun s => was_reset s = false) ss /\
    (1 <= k -> region 0 29 (eeprom st') = region 0 29 (eeprom st)).
Proof.
  induction entries as [|e entries IH]; intros st k Hinv Hk Hcur Hfit.
  - exists st, []. split; [reflexivity|]. split; [exact Hinv|].
    split; [cbn [length]; lia|]. split; [constructor | reflexivity].
  - cbn [length] in Hfit.
    destruct (saveToEEPROM_inv e st Hinv) as (Hrun & Hin & Hal & Hinv1).
    rewrite sizeof_LogEntry_eq, EEPROM_SIZE_eq in Hrun, Hinv1.
    assert ((1024 <=? currentAddress st + 29) = false) as Hno
      by (apply Z.leb_gt; lia).
    rewrite Hno in Hrun, Hinv1.
    destruct (IH _ (k + 1) Hinv1) as (st' & ss & Hrest & Hinv' & Hc & Hall & Hkeep);
      [lia | cbn; lia | lia |].
    eexists _, _. split; [exact (run_logger_cons _ _ _ _ _ _ _ Hrun Hrest)|].
    split; [exact Hinv'|].
    split; [rewrite Hc; cbn [length]; lia|].
    split; [constructor; [reflexivity | exact Hall]|].
    intros Hk1. rewrite Hkeep by lia. cbn [eeprom].
    destruct Hinv as (Hlen & _ & _). rewrite EEPROM_SIZE_eq in Hlen.
    apply (region_kept _ _ _ 29); lia.
Qed.

(** The overflow test is [>=]: a record that would end exactly at the end
    of the store is not written there.  With records of 29 bytes no record
    boundary is 29 bytes below 1024, so the case does not arise. *)
Example overflow_test_at_exact_fit :
  overflows (EEPROM_SIZE - sizeof_LogEntry) = true /\
  ~ record_aligned (EEPROM_SIZE - sizeof_LogEntry).
Proof.
  split; [reflexivity|]. intros (k & Hk & Heq).
  rewrite sizeof_LogEntry_eq, EEPROM_SIZE_eq in Heq. lia.
Qed.

(** C2.  In every state the log can be in, a call succeeds; it resets
    the cursor to 0 before writing exactly when the record would not fit
    below the end of the store, writes the record at the cursor, reset or
    not, and leaves the cursor one record size after the address it wrote
    at. *)
Theorem save_resets_iff_no_room e st :
  reachable st ->
  exists st' s,
    saveToEEPROM e st = Some (st', s) /\
    (was_reset s = true <->
     EEPROM_SIZE < currentAddress st + sizeof_LogEntry) /\
    written_at s = (if was_reset s then 0 else currentAddress st) /\
    region (written_at s) sizeof_LogEntry (eeprom st') = object_bytes e /\
    currentAddress st' = written_at s + sizeof_LogEntry.
Proof.
  intros Hreach. pose proof (reachable_inv st Hreach) as Hinv.
  destruct (saveToEEPROM_inv e st Hinv) as (Hrun & Hin & _ & _).
  eexists _, _. split; [exact Hrun|]. cbn.
  destruct Hinv as (Hlen & (k & Hk & Hcur) & Hlt).
  destruct Hin as [Hc0 Hc1].
  rewrite sizeof_LogEntry_eq, EEPROM_SIZE_eq in *.
  split; [|split; [reflexivity|split; [|reflexivity]]].
  - rewrite Z.leb_le. lia.
  - set (cur := if 1024 <=? currentAddress st + 29 then 0
                else currentAddress st) in *. clearbody cur.
    pose proof (length_object_bytes e) as Hobj.
    rewrite sizeof_LogEntry_eq in Hobj.
    rewrite <- (Z2Nat.id cur), <- Hobj at 1 by lia. rewrite Z2Nat.id by lia.
    rewrite <- (Z2Nat.id cur) at 1 by lia.
    apply region_written. lia.
Qed.

(** C9.  Whatever the store held at start-up and whatever entries arrive,
    every call succeeds, writes a whole record inside the store at a
    record boundary, and leaves the cursor one record after it; the cursor
    is a non-negative multiple of the record size after every call. *)
Theorem cursor_record_aligned entries mem :
  Z.of_nat (length mem) = EEPROM_SIZE ->
  exists st ss,
    vTaskLogger entries (boot_state mem) = Some (st, ss) /\
    length ss = length entries /\
    record_aligned (currentAddress st) /\
    Forall (fun s => record_aligned (written_at s) /\
                     in_bounds (written_at s) /\
                     reported s = written_at s + sizeof_LogEntry /\
                     record_aligned (reported s)) ss /\
    (forall s, last ss = Some s -> currentAddress st = reported s).
Proof.
  intros Hlen. pose proof (boot_state_inv mem Hlen) as Hinv.
  revert Hinv. generalize (boot_state mem). clear mem Hlen.
  induction entries as [|e entries IH]; intros st Hinv.
  - exists st, []. split; [reflexivity|]. split; [reflexivity|].
    split; [apply Hinv|]. split; [constructor | done].
  - destruct (saveToEEPROM_inv e st Hinv) as (Hrun & Hin & Hal & Hinv1).
    destruct (IH _ Hinv1) as (st' & ss & Hrest & Hl & Hal' & Hall & Hlast).
    eexists _, _. split; [exact (run_logger_cons _ _ _ _ _ _ _ Hrun Hrest)|].
    split; [cbn; by rewrite Hl|]. split; [exact Hal'|]. split.
    + constructor; [|exact Hall]. cbn.
      split; [exact Hal|]. split; [exact Hin|]. split; [reflexivity|].
      apply Hinv1.
    + intros s. destruct ss as [|s' ss]; cbn.
      * intros [= <-]. destruct entries; [|done].
        cbn in Hrest. by inversion Hrest.
      * intros Hs. by apply Hlast.
Qed.

(** C3.  With a store of 1024 bytes and records of [sizeof(LogEntry)]
    bytes, [floor(1024 / sizeof(LogEntry))] records are written one after
    the other from offset 0 without a wrap, and the bytes of the first
    record are still at offset 0.  The next call wraps: it resets the
    cursor to 0, writes its record at offset 0, over the bytes of the
    first record, and leaves the cursor one record further. *)
Theorem wraparound_overwrites_first mem e1 middle e_last :
  Z.of_nat (length mem) = EEPROM_SIZE ->
  Z.of_nat (length (e1 :: middle)) = EEPROM_SIZE / sizeof_LogEntry ->
  exists st_full ss_full st_wrap s_wrap,
    vTaskLogger (e1 :: middle) (boot_state mem) = Some (st_full, ss_full) /\
    Forall (fun s => was_reset s = false) ss_full /\
    (exists s1, ss_full !! 0%nat = Some s1 /\ written_at s1 = 0) /\
    region 0 sizeof_LogEntry (eeprom st_full) = object_bytes e1 /\
    vTaskLogger (e1 :: middle ++ [e_last]) (boot_state mem)
    = Some (st_wrap, ss_full ++ [s_wrap]) /\
    was_reset s_wrap = true /\ written_at s_wrap = 0 /\
    region 0 sizeof_LogEntry (eeprom st_wrap) = object_bytes e_last /\
    currentAddress st_wrap = sizeof_LogEntry.
Proof.
  intros Hlen Hcount.
  change (EEPROM_SIZE / sizeof_LogEntry) with 35 in Hcount.
  cbn [length] in Hcount.
  pose proof (boot_state_inv mem Hlen) as Hinv0.
  pose proof (length_object_bytes e1) as Hobj1.
  pose proof (length_object_bytes e_last) as Hobj2.
  rewrite sizeof_LogEntry_eq, EEPROM_SIZE_eq in *.
  (* the first record *)
  destruct (saveToEEPROM_inv e1 _ Hinv0) as (Hrun1 & _ & _ & Hinv1).
  rewrite sizeof_LogEntry_eq, EEPROM_SIZE_eq in Hrun1, Hinv1.
  cbn [boot_state currentAddress eeprom] in Hrun1, Hinv1.
  change (1024 <=? 0 + 29) with false in Hrun1, Hinv1.
  cbn iota in Hrun1, Hinv1. change (Z.to_nat 0) with 0%nat in Hrun1, Hinv1.
  (* the records that still fit *)
  destruct (run_logger_no_wrap middle _ 1 Hinv1)
    as (st_full & ss & Hrun & Hinv_full & Hcur & Hnone & Hkeep);
    [lia | reflexivity | lia |].
  (* the record that wraps *)
  destruct (saveToEEPROM_inv e_last _ Hinv_full) as (Hrun2 & _ & _ & _).
  rewrite sizeof_LogEntry_eq, EEPROM_SIZE_eq in Hrun2.
  assert ((1024 <=? currentAddress st_full + 29) = true) as Hwrap
    by (apply Z.leb_le; lia).
  rewrite Hwrap in Hrun2. change (Z.to_nat 0) with 0%nat in Hrun2.
  eexists st_full, _, _, _.
  split; [exact (run_logger_cons _ _ _ _ _ _ _ Hrun1 Hrun)|].
  split; [constructor; [reflexivity | exact Hnone]|].
  split; [eexists; split; reflexivity|].
  split.
  { rewrite Hkeep by lia. cbn [eeprom].
    change 0 with (Z.of_nat 0). rewrite <- Hobj1.
    apply region_written. lia. }
  split.
  { change (e1 :: middle ++ [e_last]) with ((e1 :: middle) ++ [e_last]).
    rewrite run_logger_app.
    rewrite (run_logger_cons _ _ _ _ _ _ _ Hrun1 Hrun).
    cbn [vTaskLogger]. rewrite Hrun2. reflexivity. }
  split; [reflexivity|]. split; [reflexivity|].
  split; [|reflexivity]. cbn [eeprom].
  change 0 with (Z.of_nat 0). rewrite <- Hobj2.
  apply region_written. lia.
Qed.

End StoreFacts.

(** Witnesses on an erased store. *)
Lemma save_resets_iff_no_room_witness :
  exists st' s,
    Store.saveToEEPROM Store.sample_entry (Store.boot_state Store.erased)
    = Some (st', s) /\
    (Store.was_reset s = true <->
     Store.EEPROM_SIZE
     < Store.currentAddress (Store.boot_state Store.erased)
       + Store.sizeof_LogEntry) /\
    Store.written_at s
    = (if Store.was_reset s then 0
       else Store.currentAddress (Store.boot_state Store.erased)) /\
    Store.region (Store.written_at s) Store.sizeof_LogEntry (Store.eeprom st')
    = Store.object_bytes Store.sample_entry /\
    Store.currentAddress st' = Store.written_at s + Store.sizeof_LogEntry.
Proof.
  apply (save_resets_iff_no_room Store.sample_entry
           (Store.boot_state Store.erased)).
  apply Store.reach_boot. reflexivity.
Defined.

Lemma cursor_record_aligned_witness :
  exists st ss,
    Store.vTaskLogger [Store.sample_entry; Store.later_entry]
      (Store.boot_state Store.erased) = Some (st, ss) /\
    Store.currentAddress st = 58.
Proof.
  destruct (cursor_record_aligned [Store.sample_entry; Store.later_entry]
              Store.erased) as (st & ss & Hrun & _); [reflexivity|].
  exists st, ss. split; [exact Hrun|].
  vm_compute in Hrun. by inversion Hrun.
Defined.

Lemma wraparound_overwrites_first_witness :
  exists st_wrap ss,
    Store.vTaskLogger
      (Store.sample_entry
         :: replicate 34 Store.sample_entry ++ [Store.later_entry])
      (Store.boot_state Store.erased) = Some (st_wrap, ss) /\
    Store.region 0 Store.sizeof_LogEntry (Store.eeprom st_wrap)
    = Store.object_bytes Store.later_entry /\
    Store.currentAddress st_wrap = Store.sizeof_LogEntry.
Proof.
  destruct (wraparound_overwrites_first Store.erased Store.sample_entry
              (replicate 34 Store.sample_entry) Store.later_entry)
    as (st_full & ss_full & st_wrap & s_wrap & _ & _ & _ & _ & Hrun & _ & _
        & Hbytes & Hcur); [reflexivity | reflexivity |].
  exists st_wrap, (ss_full ++ [s_wrap]). by repeat split.
Defined.

(* ===================================================================== *)
(** * Debounce of the keypad task *)
(* ===================================================================== *)

Section KeyboardFacts.
Import Keyboard.
Implicit Types (st : State) (p q : Poll) (polls held : list Poll).
Implicit Types (k : ascii) (t : Z).

Lemma vTaskKeyboard_app polls1 polls2 : forall st,
  vTaskKeyboard st (polls1 ++ polls2)
  = vTaskKeyboard st polls1 ++ vTaskKeyboard (state_after st polls1) polls2.
Proof.
  induction polls1 as [|p polls1 IH]; intros st; [reflexivity|].
  cbn [app vTaskKeyboard state_after]. destruct (step st p) as [st' [d|]]; cbn [fst].
  - by rewrite IH.
  - apply IH.
Qed.

(** The wrapped difference of two [millis()] readings is the time that
    passed between them, as long as that is less than 2^32 ms. *)
Lemma elapsed_exact t0 t :
  0 <= t - t0 < 2 ^ 32 -> to_uint32 (millis t - millis t0) = t - t0.
Proof.
  intros Hd. unfold millis, to_uint32.
  rewrite <- Zminus_mod. by apply Z.mod_small.
Qed.

(** While nothing is pressed nothing is dispatched, and [lastKey] stays
    what it was or is cleared. *)
Lemma idle_polls polls : forall st,
  Forall (fun p => key p = NO_KEY) polls ->
  vTaskKeyboard st polls = [] /\
  (lastKey (state_after st polls) = lastKey st \/
   lastKey (state_after st polls) = NO_KEY).
Proof.
  induction polls as [|p polls IH]; intros st Hidle; [by split; [|left]|].
  apply Forall_cons in Hidle as [Hp Hidle].
  cbn [vTaskKeyboard state_after]. unfold step. rewrite Hp. cbn [Ascii.eqb negb andb].
  change (Ascii.eqb NO_KEY NO_KEY) with true. cbn [negb andb fst].
  destruct (to_uint32 (millis (t_check p) - lastKeyTime st) >? 200).
  - destruct (IH (mkState NO_KEY (lastKeyTime st)) Hidle) as [Hrun Hlast].
    split; [exact Hrun|]. right. by destruct Hlast as [-> | ->].
  - by apply IH.
Qed.

Lemma well_timed_app polls1 polls2 :
  well_timed (polls1 ++ polls2) -> well_timed polls2.
Proof.
  induction polls1 as [|p polls1 IH]; [done|].
  cbn [app well_timed]. intros (_ & _ & _ & Hrest). by apply IH.
Qed.

Lemma well_timed_later p polls :
  well_timed (p :: polls) ->
  Forall (fun q => t_check p + 50 <= t_poll q) polls.
Proof.
  revert p. induction polls as [|q polls IH]; intros p Hwt; [constructor|].
  destruct Hwt as (Hp0 & Hp1 & Hpq & Hrest).
  constructor; [exact Hpq|].
  pose proof (IH q Hrest) as Hlater.
  destruct Hrest as (_ & Hq1 & _).
  eapply Forall_impl; [exact Hlater|]. cbn. intros r Hr. lia.
Qed.

(** Polls that still report the accepted key less than 200 ms after it was
    accepted are ignored. *)
Lemma held_polls k t0 held : forall st,
  lastKey st = k -> lastKeyTime st = millis t0 ->
  well_timed held ->
  Forall (fun p => key p = k /\ t0 <= t_poll p < t0 + 200) held ->
  vTaskKeyboard st held = [].
Proof.
  induction held as [|p held IH]; intros st Hk Ht Hwt Hheld; [done|].
  apply Forall_cons in Hheld as [[Hp Hspan] Hheld].
  destruct Hwt as (_ & Hpc & Hnext & Hwt).
  assert (step st p
          = (if to_uint32 (millis (t_check p) - lastKeyTime st) >? 200
             then mkState NO_KEY (lastKeyTime st) else st, None)) as Hstep.
  { unfold step. rewrite Hp, Hk, Ascii.eqb_refl.
    by rewrite andb_false_r. }
  cbn [vTaskKeyboard]. rewrite Hstep.
  destruct held as [|q held]; [done|].
  apply Forall_cons in Hheld as Hq. destruct Hq as [[_ Hq] _].
  rewrite Ht, elapsed_exact by lia.
  replace (t_check p - t0 >? 200) with false
    by (symmetry; rewrite Z.gtb_ltb; apply Z.ltb_ge; lia).
  by apply IH.
Qed.

(** C7.  A key [k] is reported in a run of consecutive polls, the first at
    time [t0] and all of them less than 200 ms after [t0]; before and
    after, no key is reported; the passes are at least 50 ms apart.  From
    any state whose [lastKey] is not [k] (the initial state is one),
    exactly one key is dispatched: [k], once. *)
Theorem debounce_single_dispatch st k pre p0 held post :
  k <> NO_KEY -> lastKey st <> k ->
  Forall (fun p => key p = NO_KEY) pre ->
  Forall (fun p => key p = k) (p0 :: held) ->
  Forall (fun p => key p = NO_KEY) post ->
  well_timed (pre ++ p0 :: held ++ post) ->
  Forall (fun p => t_poll p < t_poll p0 + 200) held ->
  vTaskKeyboard st (pre ++ p0 :: held ++ post) = [k].
Proof.
  intros Hk Hlast Hpre Hkeys Hpost Hwt Hspan.
  apply Forall_cons in Hkeys as [Hp0 Hkeys].
  rewrite vTaskKeyboard_app. destruct (idle_polls pre st Hpre) as [-> Hst].
  apply well_timed_app in Hwt.
  set (st0 := state_after st pre) in *.
  assert (lastKey st0 <> k) as Hlast0 by (destruct Hst as [-> | ->]; auto).
  clearbody st0. clear Hst Hlast Hpre pre st.
  cbn [app vTaskKeyboard]. unfold step. rewrite Hp0.
  rewrite (proj2 (Ascii.eqb_neq k NO_KEY)) by done.
  rewrite (proj2 (Ascii.eqb_neq k (lastKey st0))) by auto.
  cbn [negb andb lastKeyTime]. f_equal.
  rewrite vTaskKeyboard_app.
  assert (forall st', vTaskKeyboard (state_after st' held) post = []) as Hafter
    by (intros st'; by apply idle_polls).
  destruct held as [|q held].
  - cbn [vTaskKeyboard app]. apply Hafter.
  - rewrite Hafter, app_nil_r.
    change (p0 :: (q :: held) ++ post) with ((p0 :: q :: held) ++ post) in Hwt.
    assert (well_timed (p0 :: q :: held)) as Hwt'.
    { clear -Hwt. revert Hwt. generalize (p0 :: q :: held).
      intros l. induction l as [|a l IH]; [done|].
      cbn [app well_timed]. intros (H0 & H1 & H2 & H3).
      split; [exact H0|]. split; [exact H1|]. split; [|by apply IH].
      destruct l; [done | exact H2]. }
    pose proof (well_timed_later _ _ Hwt') as Hlater.
    destruct Hwt' as (Hp00 & Hp01 & Hp0q & Hwt').
    apply Forall_cons in Hspan as Hq. destruct Hq as [Hq _].
    rewrite elapsed_exact by lia.
    replace (t_check p0 - t_poll p0 >? 200) with false
      by (symmetry; rewrite Z.gtb_ltb; apply Z.ltb_ge; lia).
    apply (held_polls k (t_poll p0)); auto.
    apply Forall_forall. intros r Hr.
    split; [by eapply Forall_forall in Hkeys|].
    eapply Forall_forall in Hlater; [|exact Hr].
    eapply Forall_forall in Hspan; [|exact Hr]. lia.
Qed.

End KeyboardFacts.

Lemma debounce_single_dispatch_witness :
  Keyboard.vTaskKeyboard Keyboard.initial_state
    ([Keyboard.quick Keyboard.NO_KEY 900; Keyboard.quick Keyboard.NO_KEY 950]
       ++ Keyboard.quick "5" 1000
       :: [Keyboard.quick "5" 1050; Keyboard.quick "5" 1100;
           Keyboard.quick "5" 1150]
       ++ [Keyboard.quick Keyboard.NO_KEY 1200;
           Keyboard.quick Keyboard.NO_KEY 1250])
  = ["5"%char].
Proof.
  apply debounce_single_dispatch.
  - discriminate.
  - discriminate.
  - repeat constructor.
  - repeat constructor.
  - repeat constructor.
  - cbn. lia.
  - repeat constructor; cbn; lia.
Defined.

Section KeyboardExamples.
Import Keyboard.

(** A command key: the pass that dispatches [B] spends a second in
    [vTaskDelay] before the check, which clears [lastKey]; the key is no
    longer reported in the next pass. *)
Example command_key_once :
  command_of <$> vTaskKeyboard initial_state
    [quick NO_KEY 950; mkPoll "B" 1000 2005; quick NO_KEY 2055]
  = [LogNow].
Proof. reflexivity. Qed.

(** Past the window: a key still reported more than 200 ms after it was
    accepted is dispatched again. *)
Example long_press_repeats :
  vTaskKeyboard initial_state
    [quick "5" 1000; quick "5" 1050; quick "5" 1100; quick "5" 1150;
     quick "5" 1200; quick "5" 1250; quick "5" 1300]
  = ["5"%char; "5"%char].
Proof. reflexivity. Qed.

End KeyboardExamples.

(* ===================================================================== *)
(** * The accuracy class *)
(* ===================================================================== *)

Section SelfTestFacts.
Import Lux SelfTest.
Context {F : Type} `{FloatOps F}.
Implicit Types (data todo : list (CalibrationPoint F)) (rep : Report F).

(** The four buckets, spelled out. *)
Lemma classify_buckets (m : F) :
  (fleb (fabs m) (of_int 1) = true -> classify m = "0.5") /\
  (fleb (fabs m) (of_int 1) = false -> fleb (fabs m) (of_int 2) = true ->
   classify m = "1.0") /\
  (fleb (fabs m) (of_int 1) = false -> fleb (fabs m) (of_int 2) = false ->
   fleb (fabs m) (of_int 5) = true -> classify m = "2.5") /\
  (fleb (fabs m) (of_int 1) = false -> fleb (fabs m) (of_int 2) = false ->
   fleb (fabs m) (of_int 5) = false -> classify m = "4.0").
Proof.
  unfold classify. repeat split; intros; by repeat match goal with
    | Hc : fleb _ _ = _ |- _ => rewrite Hc; clear Hc end.
Qed.

(** The maximum the loop ends with is the start value or the relative
    error of one of the rows. *)
Lemma test_loop_max data todo : forall i maxErr sumErr rs m s,
  test_loop data i todo maxErr sumErr = Some (rs, m, s) ->
  m = maxErr \/ exists r, r ∈ rs /\ m = relativeError r.
Proof.
  induction todo as [|p todo IH]; intros i maxErr sumErr rs m s Hrun.
  - cbn in Hrun. inversion Hrun; subst. by left.
  - cbn [test_loop] in Hrun.
    destruct (measure data i p) as [r|]; [|done]. cbn in Hrun.
    destruct (test_loop data (S i) todo _ _) as [[[rs' m'] s']|] eqn:Hrest;
      [|done].
    cbn in Hrun. inversion Hrun; subst. clear Hrun.
    destruct (IH _ _ _ _ _ _ Hrest) as [Hm | (r' & Hr' & Hm)].
    + destruct (fltb (fabs maxErr) (fabs (relativeError r))).
      * right. exists r. split; [apply list_elem_of_here | done].
      * by left.
    + right. exists r'. split; [by apply list_elem_of_further | done].
Qed.

(** On a non-empty table the self-test runs to the end. *)
Lemma test_loop_total data todo : forall i maxErr sumErr,
  data <> [] ->
  exists rs m s, test_loop data i todo maxErr sumErr = Some (rs, m, s).
Proof.
  induction todo as [|p todo IH]; intros i maxErr sumErr Hne.
  - by eexists _, _, _.
  - destruct (calculateLuxFromADC_total data (adc p) Hne) as [v Hv].
    cbn [test_loop]. unfold measure. rewrite Hv. cbn.
    edestruct (IH (S i)) as (rs & m & s & Hrest); [exact Hne|].
    rewrite Hrest. cbn. by eexists _, _, _.
Qed.

End SelfTestFacts.

Section ClassifyExamples.
Import SelfTest Float32.

(** The bucket boundaries in binary32; a NaN or an infinite maximum falls
    through every comparison. *)
Example classify_boundaries :
  classify (of_int 1 : float32) = "0.5" /\
  classify (scaled (-3) (-1)) = "1.0" /\
  classify (of_int (-2) : float32) = "1.0" /\
  classify (of_int 5 : float32) = "2.5" /\
  classify (scaled 11 (-1)) = "4.0" /\
  classify S754_nan = "4.0" /\
  classify (S754_infinity true) = "4.0".
Proof. by repeat split. Qed.

End ClassifyExamples.

(* ===================================================================== *)
(** * More on the scan of the interpolation *)
(* ===================================================================== *)

Section ScanFacts.
Import Lux.
Context {F : Type} `{FloatOps F}.
Implicit Types (data : list (CalibrationPoint F)) (p q : CalibrationPoint F).
Implicit Types (D : Z) (i j n : nat).

(** The loop is entered with the input strictly above [data[0].adc], and it
    moves on from an index only when the input is strictly above the next
    [adc]: at the pair it stops at, the input is strictly above the left
    [adc]. *)
Lemma scan_finds_strict D data n i p plast :
  (i + n = length data - 1)%nat ->
  data !! i = Some p -> adc p < D ->
  data !! (length data - 1)%nat = Some plast -> D < adc plast ->
  exists j pj qj,
    scan D data i n = Some (Segment j, interpolate D pj qj) /\
    (i <= j)%nat /\ data !! j = Some pj /\ data !! S j = Some qj /\
    adc pj < D /\ D <= adc qj.
Proof.
  revert i p. induction n as [|n IH]; intros i p Hlen Hp HpD Hlast HD.
  - replace (length data - 1)%nat with i in Hlast by lia.
    rewrite Hp in Hlast. inversion Hlast; subst. lia.
  - destruct (lookup_lt_is_Some_2 data (S i)) as [q Hq].
    { apply lookup_lt_Some in Hlast. lia. }
    cbn [scan]. rewrite Hp. cbn. rewrite Z.geb_leb.
    rewrite (proj2 (Z.leb_le (adc p) D)) by lia. rewrite Hq. cbn.
    destruct (D <=? adc q) eqn:HDq.
    + apply Z.leb_le in HDq. exists i, p, q. repeat split; auto.
    + apply Z.leb_gt in HDq.
      destruct (IH (S i) q) as (j & pj & qj & Hs & Hij & Hrest); auto;
        [lia|].
      exists j, pj, qj. split; [exact Hs|]. split; [lia | exact Hrest].
Qed.

(** Where the function stops on a non-empty table. *)
Lemma stops_strict data D :
  data <> [] ->
  exists b v,
    calculateLuxFromADC_traced D data = Some (b, v) /\ b <> Fallback /\
    forall i, b = Segment i ->
      exists p q,
        data !! i = Some p /\ data !! S i = Some q /\
        adc p < D /\ D <= adc q /\ v = interpolate D p q.
Proof.
  intros Hne.
  destruct (lookup_lt_is_Some_2 data 0) as [p0 Hp0];
    [destruct data; [done | cbn; lia]|].
  destruct (lookup_lt_is_Some_2 data (length data - 1)) as [pl Hpl];
    [destruct data; [done | cbn; lia]|].
  unfold calculateLuxFromADC_traced. rewrite Hp0. cbn.
  destruct (D <=? adc p0) eqn:Hlow.
  { eexists _, _. split; [reflexivity|]. split; done. }
  apply Z.leb_gt in Hlow. rewrite Hpl. cbn. rewrite Z.geb_leb.
  destruct (adc pl <=? D) eqn:Hhigh.
  { eexists _, _. split; [reflexivity|]. split; done. }
  apply Z.leb_gt in Hhigh.
  destruct (scan_finds_strict D data (length data - 1) 0 p0 pl)
    as (j & pj & qj & Hs & _ & Hj & HSj & Hlo & Hhi); auto.
  rewrite Hs. eexists _, _. split; [reflexivity|]. split; [done|].
  intros i [= <-]. exists pj, qj. by repeat split.
Qed.

(** X1.  On every non-empty table, sorted or not, with or without repeated [adc]
    values, the function returns, never through the final [return 0.0], and
    when it interpolates on the pair [(i, i+1)] the input lies in
    [(data[i].adc, data[i+1].adc]]: the divisor [data[i+1].adc -
    data[i].adc] is positive. *)
Theorem divisor_positive data D :
  data <> [] ->
  exists b v,
    calculateLuxFromADC_traced D data = Some (b, v) /\ b <> Fallback /\
    forall i, b = Segment i ->
      exists p q,
        data !! i = Some p /\ data !! S i = Some q /\
        adc p < D /\ D <= adc q /\ 0 < adc q - adc p /\
        v = interpolate D p q.
Proof.
  intros Hne. destruct (stops_strict data D Hne) as (b & v & Hrun & Hb & Hseg).
  exists b, v. split; [exact Hrun|]. split; [exact Hb|].
  intros i Hi. destruct (Hseg i Hi) as (p & q & Hp & Hq & Hlo & Hhi & Hv).
  exists p, q. repeat split; auto. lia.
Qed.

(** X2.  On a table sorted by strictly increasing [adc], the pair the loop stops
    at is the only pair with the input in [(adc, next adc]]: a search in
    any other order that looks for such a pair finds the same one. *)
Theorem segment_unique data D i v j p q :
  increasing_adc data ->
  calculateLuxFromADC_traced D data = Some (Segment i, v) ->
  data !! j = Some p -> data !! S j = Some q ->
  adc p < D -> D <= adc q ->
  j = i /\ v = interpolate D p q.
Proof.
  intros Hinc Hrun Hp Hq Hlo Hhi.
  destruct (stops_strict data D) as (b & v' & Hrun' & _ & Hseg).
  { intros ->. done. }
  rewrite Hrun in Hrun'. inversion Hrun'; subst b v'. clear Hrun'.
  destruct (Hseg i eq_refl) as (pi & qi & Hpi & Hqi & Hlo' & Hhi' & Hv).
  assert (forall a b pa pb, (a < b)%nat -> data !! a = Some pa ->
          data !! b = Some pb -> adc pa < adc pb) as Hlt
    by (intros; by eapply increasing_adc_lookup).
  assert (j = i) as ->.
  { destruct (lt_eq_lt_dec j i) as [[Hji | ->] | Hij]; [|done|].
    - assert (adc q <= adc pi); [|lia].
      destruct (decide (S j = i)) as [<-|]; [by simplify_eq|].
      apply Z.lt_le_incl, (Hlt (S j) i); auto. lia.
    - assert (adc qi <= adc p); [|lia].
      destruct (decide (S i = j)) as [<-|]; [by simplify_eq|].
      apply Z.lt_le_incl, (Hlt (S i) j); auto. lia. }
  split; [done|]. by simplify_eq.
Qed.

End ScanFacts.

Lemma divisor_positive_witness :
  exists b v,
    Lux.calculateLuxFromADC_traced 8 Lux.unsorted_table = Some (b, v) /\
    b <> Lux.Fallback.
Proof.
  destruct (divisor_positive Lux.unsorted_table 8)
    as (b & v & Hrun & Hb & _); [discriminate|].
  by exists b, v.
Defined.

Lemma segment_unique_witness :
  3%nat = 3%nat /\
  (of_int 625 : Float32.float32)
  = Lux.interpolate 650 (Lux.mkPoint 600 (of_int 500 : Float32.float32))
      (Lux.mkPoint 700 (of_int 750)).
Proof.
  apply (segment_unique Lux.CalibrationData 650 3 (of_int 625) 3
           (Lux.mkPoint 600 (of_int 500)) (Lux.mkPoint 700 (of_int 750)));
    [cbn; lia | reflexivity | reflexivity | reflexivity | cbn; lia | cbn; lia].
Defined.

Section PublishedRange.
Import Lux Float32.

(** X3.  Whatever [analogRead] gives, the value [vTaskMeasureLuminosity] sends
    to the queue exists and lies between 10 and 1500: the built-in table
    never produces a NaN, an infinity or a value outside its own range. *)
Theorem builtin_range (D : Z) :
  exists v,
    calculateLuxFromADC D CalibrationData = Some v /\
    fleb (of_int 10) v = true /\ fleb v (of_int 1500) = true.
Proof.
  rewrite (builtin_clamped D).
  set (k := Z.to_nat (Z.max 200 (Z.min 1000 D) - 200)).
  assert (k <= 800)%nat as Hk by (subst k; lia).
  destruct (monotone_from_sound CalibrationData 200 801 0 k builtin_sweep)
    as (a & v & Ha & Hv & Hav); [lia|].
  destruct (monotone_from_sound CalibrationData 200 801 k 800 builtin_sweep)
    as (v' & b & Hv' & Hb & Hvb); [lia|].
  rewrite Hv in Hv'. inversion Hv'; subst v'. clear Hv'.
  vm_compute in Ha, Hb. inversion Ha; inversion Hb; subst a b.
  by exists v.
Qed.

End PublishedRange.

(* ===================================================================== *)
(** * The report of the self-test *)
(* ===================================================================== *)

Section ReportFacts.
Import Lux SelfTest.
Context {F : Type} `{FloatOps F}.
Implicit Types (data todo : list (CalibrationPoint F)) (rs : list (Row F)).

(** The sum the loop carries is the left-to-right sum of the absolute
    relative errors of the rows. *)
Lemma test_loop_rows data todo : forall i maxErr sumErr rs m s,
  test_loop data i todo maxErr sumErr = Some (rs, m, s) ->
  length rs = length todo /\
  s = foldl (fun acc r => fadd acc (fabs (relativeError r))) sumErr rs /\
  forall k p, todo !! k = Some p ->
    exists r,
      rs !! k = Some r /\ row_no r = Z.of_nat (i + k) + 1 /\
      row_adc r = adc p /\ referenceLux r = lux p /\
      calculateLuxFromADC (adc p) data = Some (measuredLux r) /\
      error r = fsub (measuredLux r) (lux p) /\
      relativeError r = fmul (fdiv (error r) (lux p)) (of_int 100).
Proof.
  induction todo as [|p todo IH]; intros i maxErr sumErr rs m s Hrun.
  - cbn in Hrun. inversion Hrun; subst. by repeat split.
  - cbn [test_loop] in Hrun. unfold measure in Hrun.
    destruct (calculateLuxFromADC (adc p) data) as [v|] eqn:Hv; [|done].
    cbn in Hrun.
    destruct (test_loop data (S i) todo _ _) as [[[rs' m'] s']|] eqn:Hrest;
      [|done].
    cbn in Hrun. inversion Hrun; subst. clear Hrun.
    destruct (IH _ _ _ _ _ _ Hrest) as (Hlen & Hsum & Hrows).
    split; [cbn; by rewrite Hlen|]. split; [exact Hsum|].
    intros [|k] q Hq; cbn in Hq.
    + inversion Hq; subst q. eexists. split; [reflexivity|]. cbn.
      repeat split; auto. lia.
    + destruct (Hrows k q Hq) as (r & Hr & Hno & Hrest').
      exists r. split; [exact Hr|]. split; [lia | exact Hrest'].
Qed.

(** X4.  On every non-empty table the report has one row per calibration point,
    in table order and numbered from 1; each row holds the point, the value
    the function gives at the point's own [adc] and the two errors derived
    from it; the mean is the left-to-right sum of the absolute relative
    errors divided by the number of points. *)
Theorem report_rows data :
  data <> [] ->
  exists rep,
    printCalibrationTable data = Some rep /\
    length (rows rep) = length data /\
    (forall k p, data !! k = Some p ->
       exists r,
         rows rep !! k = Some r /\ row_no r = Z.of_nat k + 1 /\
         row_adc r = adc p /\ referenceLux r = lux p /\
         calculateLuxFromADC (adc p) data = Some (measuredLux r) /\
         error r = fsub (measuredLux r) (lux p) /\
         relativeError r = fmul (fdiv (error r) (lux p)) (of_int 100)) /\
    avgError rep
    = fdiv (foldl (fun acc r => fadd acc (fabs (relativeError r)))
              (of_int 0) (rows rep))
        (of_int (Z.of_nat (length data))).
Proof.
  intros Hne. unfold printCalibrationTable.
  destruct (test_loop_total data data 0 (of_int 0) (of_int 0) Hne)
    as (rs & maxErr & sumErr & Hrun).
  rewrite Hrun. cbn. eexists. split; [reflexivity|]. cbn.
  destruct (test_loop_rows _ _ _ _ _ _ _ _ Hrun) as (Hlen & Hsum & Hrows).
  split; [exact Hlen|]. split; [exact Hrows|]. by rewrite Hsum.
Qed.

End ReportFacts.

Lemma report_rows_witness :
  exists rep,
    SelfTest.printCalibrationTable Lux.CalibrationData = Some rep /\
    length (SelfTest.rows rep) = 10%nat.
Proof.
  destruct (report_rows Lux.CalibrationData)
    as (rep & Hrun & Hlen & _); [discriminate|].
  by exists rep.
Defined.

(* ===================================================================== *)
(** * The maximum and the mean in binary32 *)
(* ===================================================================== *)

Section FloatOrder.
Import Float32.
Implicit Types (a b c : float32).

Lemma abs_leb_trans a b c :
  SFleb (SFabs a) (SFabs b) = true -> SFleb (SFabs b) (SFabs c) = true ->
  SFleb (SFabs a) (SFabs c) = true.
Proof.
  destruct a as [sa|sa| |sa ma ea], b as [sb|sb| |sb mb eb],
    c as [sc|sc| |sc mc ec]; cbn; try done.
  unfold SFleb, SFcompare.
  change (Pos.compare_cont Eq) with Pos.compare.
  destruct (Z.compare_spec ea eb), (Z.compare_spec eb ec),
    (Z.compare_spec ea ec); try lia; try done; subst;
  destruct (Pos.compare_spec ma mb), (Pos.compare_spec mb mc),
    (Pos.compare_spec ma mc); try lia; try done.
Qed.

Lemma abs_ltb_leb a b :
  SFltb (SFabs a) (SFabs b) = true -> SFleb (SFabs a) (SFabs b) = true.
Proof.
  unfold SFltb, SFleb. by destruct (SFcompare (SFabs a) (SFabs b)) as [[]|].
Qed.

Lemma abs_ltb_not_nan a b :
  SFltb (SFabs a) (SFabs b) = true -> is_nan b = false.
Proof. by destruct a, b. Qed.

Lemma abs_leb_total a b :
  is_nan a = false -> is_nan b = false ->
  SFltb (SFabs a) (SFabs b) = false -> SFleb (SFabs b) (SFabs a) = true.
Proof.
  destruct a as [sa|sa| |sa ma ea], b as [sb|sb| |sb mb eb]; cbn; try done.
  unfold SFltb, SFleb, SFcompare.
  change (Pos.compare_cont Eq) with Pos.compare.
  destruct (Z.compare_spec ea eb), (Z.compare_spec eb ea);
    try lia; try done; subst.
  destruct (Pos.compare_spec ma mb), (Pos.compare_spec mb ma);
    try lia; try done.
Qed.

Lemma abs_leb_refl a : is_nan a = false -> SFleb (SFabs a) (SFabs a) = true.
Proof.
  destruct a as [sa|sa| |sa ma ea]; cbn; try done.
  unfold SFleb, SFcompare. rewrite Z.compare_refl.
  change (Pos.compare_cont Eq) with Pos.compare. by rewrite Pos.compare_refl.
Qed.

End FloatOrder.

Section MaximumFacts.
Import Lux SelfTest Float32.
Implicit Types (data todo : list (CalibrationPoint float32)).
Implicit Types (rs : list (Row float32)).

(** The loop keeps a maximum that is not a NaN and that dominates, in
    absolute value, the start value and every row that is not a NaN. *)
Lemma test_loop_maximum data todo : forall i maxErr sumErr rs m s,
  test_loop data i todo maxErr sumErr = Some (rs, m, s) ->
  is_nan maxErr = false ->
  is_nan m = false /\
  fleb (fabs maxErr) (fabs m) = true /\
  forall r, r ∈ rs -> is_nan (relativeError r) = false ->
    fleb (fabs (relativeError r)) (fabs m) = true.
Proof.
  induction todo as [|p todo IH]; intros i maxErr sumErr rs m s Hrun Hnan.
  - cbn in Hrun. inversion Hrun; subst.
    split; [done|]. split; [by apply abs_leb_refl|].
    intros r Hr. by apply elem_of_nil in Hr.
  - cbn [test_loop] in Hrun.
    destruct (measure data i p) as [r|]; [|done]. cbn in Hrun.
    destruct (test_loop data (S i) todo _ _) as [[[rs' m'] s']|] eqn:Hrest;
      [|done].
    cbn in Hrun. inversion Hrun; subst. clear Hrun.
    destruct (SFltb (SFabs maxErr) (SFabs (relativeError r))) eqn:Hlt.
    + destruct (IH _ _ _ _ _ _ Hrest) as (Hm & Hle & Hrows);
        [by eapply abs_ltb_not_nan|].
      split; [exact Hm|]. split.
      * eapply abs_leb_trans; [|exact Hle]. by apply abs_ltb_leb.
      * intros r' Hr' Hr'nan. apply elem_of_cons in Hr' as [-> | Hr'].
        -- exact Hle.
        -- by apply Hrows.
    + destruct (IH _ _ _ _ _ _ Hrest) as (Hm & Hle & Hrows); [exact Hnan|].
      split; [exact Hm|]. split; [exact Hle|].
      intros r' Hr' Hr'nan. apply elem_of_cons in Hr' as [-> | Hr'].
      * eapply abs_leb_trans; [|exact Hle]. by apply abs_leb_total.
      * by apply Hrows.
Qed.

(** X5.  In binary32, on every non-empty table, the maximum relative error the
    self-test reports is never a NaN; it is the start value 0 or the
    relative error of one of the rows; and its absolute value is at least
    that of every row whose relative error is not a NaN.  A row whose
    relative error is a NaN is passed over. *)
Theorem max_error_is_maximum data :
  data <> [] ->
  exists rep,
    printCalibrationTable data = Some rep /\
    is_nan (maxRelativeError rep) = false /\
    (maxRelativeError rep = of_int 0 \/
     exists r, r ∈ rows rep /\ maxRelativeError rep = relativeError r) /\
    forall r, r ∈ rows rep -> is_nan (relativeError r) = false ->
      fleb (fabs (relativeError r)) (fabs (maxRelativeError rep)) = true.
Proof.
  intros Hne. unfold printCalibrationTable.
  destruct (test_loop_total data data 0 (of_int 0) (of_int 0) Hne)
    as (rs & maxErr & sumErr & Hrun).
  rewrite Hrun. cbn. eexists. split; [reflexivity|]. cbn.
  destruct (test_loop_maximum _ _ _ _ _ _ _ _ Hrun) as (Hm & _ & Hrows);
    [done|].
  split; [exact Hm|]. split; [|exact Hrows].
  exact (test_loop_max _ _ _ _ _ _ _ _ Hrun).
Qed.

Lemma nan_absorbs rs :
  foldl (fun acc r => fadd acc (fabs (relativeError r))) S754_nan rs
  = S754_nan.
Proof. induction rs as [|r rs IH]; [done | exact IH]. Qed.

Lemma nan_row_absorbs rs : forall acc r,
  r ∈ rs -> is_nan (relativeError r) = true ->
  foldl (fun acc r => fadd acc (fabs (relativeError r))) acc rs = S754_nan.
Proof.
  induction rs as [|r' rs IH]; intros acc r Hr Hnan;
    [by apply elem_of_nil in Hr|].
  apply elem_of_cons in Hr as [<- | Hr]; cbn [foldl].
  - destruct (relativeError r); try done.
    replace (fadd acc (fabs S754_nan)) with (S754_nan : float32)
      by (by destruct acc).
    apply nan_absorbs.
  - by eapply IH.
Qed.

(** The first point is always measured exactly: the clamp returns it. *)
Lemma first_point_exact (p0 : CalibrationPoint float32) rest :
  calculateLuxFromADC (adc p0) (p0 :: rest) = Some (lux p0).
Proof.
  unfold calculateLuxFromADC, calculateLuxFromADC_traced. cbn.
  by rewrite Z.leb_refl.
Qed.

(** X6.  In binary32: a row whose relative error is a NaN turns the reported
    mean into a NaN, and a first calibration point whose [lux] is zero
    gives such a row (its error is 0, and 0 / 0 is a NaN).  The maximum
    and the accuracy class do not show it. *)
Theorem zero_reference_poisons_mean data p0 rest s :
  data = p0 :: rest -> lux p0 = S754_zero s ->
  exists rep r0,
    printCalibrationTable data = Some rep /\
    rows rep !! 0%nat = Some r0 /\
    relativeError r0 = S754_nan /\
    avgError rep = S754_nan /\
    is_nan (maxRelativeError rep) = false.
Proof.
  intros Hdata Hzero.
  assert (data <> []) as Hne by (by subst).
  unfold printCalibrationTable.
  destruct (test_loop_total data data 0 (of_int 0) (of_int 0) Hne)
    as (rs & maxErr & sumErr & Hrun).
  rewrite Hrun. cbn.
  destruct (test_loop_rows _ _ _ _ _ _ _ _ Hrun) as (_ & Hsum & Hrows).
  destruct (test_loop_maximum _ _ _ _ _ _ _ _ Hrun) as (Hmax & _); [done|].
  destruct (Hrows 0%nat p0) as (r0 & Hr0 & _ & _ & _ & Hmeas & Herr & Hrel);
    [by subst|].
  rewrite Hdata, first_point_exact in Hmeas.
  inversion Hmeas as [Hm]. clear Hmeas.
  assert (relativeError r0 = S754_nan) as Hnan.
  { rewrite Hrel, Herr, <- Hm, Hzero. by destruct s. }
  eexists _, r0. split; [reflexivity|]. cbn.
  split; [exact Hr0|]. split; [exact Hnan|]. split; [|exact Hmax].
  rewrite Hsum.
  rewrite (nan_row_absorbs rs (of_int 0) r0);
    [done | by eapply list_elem_of_lookup_2 | by rewrite Hnan].
Qed.

End MaximumFacts.

Lemma max_error_is_maximum_witness :
  exists rep,
    SelfTest.printCalibrationTable Lux.overshoot_table = Some rep /\
    Float32.is_nan (SelfTest.maxRelativeError rep) = false.
Proof.
  destruct (max_error_is_maximum Lux.overshoot_table)
    as (rep & Hrun & Hmax & _); [discriminate|].
  by exists rep.
Defined.

Lemma zero_reference_poisons_mean_witness :
  exists rep,
    SelfTest.printCalibrationTable Lux.dark_table = Some rep /\
    SelfTest.avgError rep = S754_nan /\
    SelfTest.accuracyClass rep = "0.5".
Proof.
  destruct (zero_reference_poisons_mean Lux.dark_table
              (Lux.mkPoint 0 (S754_zero false))
              [Lux.mkPoint 100 (of_int 50)] false)
    as (rep & r0 & Hrun & _ & _ & Havg & _); [reflexivity | reflexivity |].
  exists rep. split; [exact Hrun|]. split; [exact Havg|].
  vm_compute in Hrun. by inversion Hrun.
Defined.

Section AccuracyClass.
Import Lux SelfTest Float32.
Implicit Types (data : list (CalibrationPoint float32)).

(** C8.  On every non-empty table the self-test runs to the end.  Its rows
    are the measurements: row [k] holds the relative error, in percent, of
    the value the function gives at the [adc] of point [k] against that
    point's [lux].  The maximum relative error [m] it reports is the
    maximum of the loop over these rows, compared by absolute value: never
    a NaN, the start value 0 or the relative error of a row, and at least
    every row's that is not a NaN.  The class it prints is derived from
    this [m]: [|m| <= 1] gives "0.5"; otherwise [|m| <= 2] gives "1.0";
    otherwise [|m| <= 5] gives "2.5"; otherwise "4.0". *)
Theorem accuracy_class_from_max_error data :
  data <> [] ->
  exists rep,
    printCalibrationTable data = Some rep /\
    length (rows rep) = length data /\
    (forall k p, data !! k = Some p ->
       exists r,
         rows rep !! k = Some r /\
         row_adc r = adc p /\ referenceLux r = lux p /\
         calculateLuxFromADC (adc p) data = Some (measuredLux r) /\
         error r = fsub (measuredLux r) (lux p) /\
         relativeError r = fmul (fdiv (error r) (lux p)) (of_int 100)) /\
    is_nan (maxRelativeError rep) = false /\
    (maxRelativeError rep = of_int 0 \/
     exists r, r ∈ rows rep /\ maxRelativeError rep = relativeError r) /\
    (forall r, r ∈ rows rep -> is_nan (relativeError r) = false ->
       fleb (fabs (relativeError r)) (fabs (maxRelativeError rep)) = true) /\
    let m := fabs (maxRelativeError rep) in
    (fleb m (of_int 1) = true -> accuracyClass rep = "0.5") /\
    (fleb m (of_int 1) = false -> fleb m (of_int 2) = true ->
     accuracyClass rep = "1.0") /\
    (fleb m (of_int 1) = false -> fleb m (of_int 2) = false ->
     fleb m (of_int 5) = true -> accuracyClass rep = "2.5") /\
    (fleb m (of_int 1) = false -> fleb m (of_int 2) = false ->
     fleb m (of_int 5) = false -> accuracyClass rep = "4.0").
Proof.
  intros Hne. unfold printCalibrationTable.
  destruct (test_loop_total data data 0 (of_int 0) (of_int 0) Hne)
    as (rs & maxErr & sumErr & Hrun).
  rewrite Hrun. cbn. eexists. split; [reflexivity|]. cbn.
  destruct (test_loop_rows _ _ _ _ _ _ _ _ Hrun) as (Hlen & _ & Hrows).
  destruct (test_loop_maximum _ _ _ _ _ _ _ _ Hrun) as (Hnan & _ & Hdom);
    [done|].
  split; [exact Hlen|]. split.
  { intros k p Hp.
    destruct (Hrows k p Hp) as (r & Hr & _ & Hadc & Href & Hmeas & Herr & Hrel).
    exists r. by repeat split. }
  split; [exact Hnan|].
  split; [exact (test_loop_max _ _ _ _ _ _ _ _ Hrun)|].
  split; [exact Hdom|]. exact (classify_buckets maxErr).
Qed.

End AccuracyClass.

(** The table [unsorted_table] is measured with errors: the largest is
    about -83 %, at its fourth point, and the class is "4.0". *)
Lemma accuracy_class_from_max_error_witness :
  exists rep,
    SelfTest.printCalibrationTable Lux.unsorted_table = Some rep /\
    SelfTest.maxRelativeError rep = S754_finite true 10922666 (-17) /\
    SelfTest.accuracyClass rep = "4.0".
Proof.
  destruct (accuracy_class_from_max_error Lux.unsorted_table)
    as (rep & Hrun & _ & _ & _ & _ & _ & _ & _ & _ & Hhigh);
    [discriminate|].
  exists rep. split; [exact Hrun|].
  vm_compute in Hrun. injection Hrun as <-.
  split; [reflexivity|]. apply Hhigh; reflexivity.
Defined.

(* ===================================================================== *)
(** * What the circular log keeps *)
(* ===================================================================== *)

Section RetentionFacts.
Import Store.
Implicit Types (st : State) (e : LogEntry) (mem bytes : list byte).
Implicit Types (entries : list LogEntry).

(** Writing [bytes] at [a] leaves every cell outside [[a, a + |bytes|)]
    alone. *)
Lemma splice_lookup_outside (a : nat) bytes mem (i : nat) :
  (a + length bytes <= length mem)%nat ->
  (i < a \/ a + length bytes <= i)%nat ->
  (take a mem ++ bytes ++ drop (a + length bytes) mem) !! i = mem !! i.
Proof.
  intros Hfit [Hlt | Hge].
  - rewrite lookup_app_l by (rewrite length_take; lia).
    by apply lookup_take_lt.
  - rewrite lookup_app_r by (rewrite length_take; lia).
    rewrite length_take, Nat.min_l by lia.
    rewrite lookup_app_r by lia. rewrite lookup_drop. f_equal. lia.
Qed.

Lemma region_outside (a : nat) bytes mem (b n : nat) :
  (a + length bytes <= length mem)%nat ->
  (b + n <= a \/ a + length bytes <= b)%nat ->
  region (Z.of_nat b) (Z.of_nat n)
    (take a mem ++ bytes ++ drop (a + length bytes) mem)
  = region (Z.of_nat b) (Z.of_nat n) mem.
Proof.
  intros Hfit Hout. unfold region. rewrite !Nat2Z.id.
  apply list_eq. intros i. rewrite !lookup_take, !lookup_drop.
  case_decide; [|done]. apply splice_lookup_outside; lia.
Qed.

(** From a state that satisfies the invariant the logger never fails. *)
Lemma vTaskLogger_total entries : forall st,
  store_inv st ->
  exists st' ss,
    vTaskLogger entries st = Some (st', ss) /\ store_inv st' /\
    length ss = length entries.
Proof.
  induction entries as [|e entries IH]; intros st Hinv.
  - by exists st, [].
  - destruct (saveToEEPROM_inv e st Hinv) as (Hrun & _ & _ & Hinv1).
    destruct (IH _ Hinv1) as (st' & ss & Hrest & Hinv' & Hlen).
    eexists _, _. split; [exact (run_logger_cons _ _ _ _ _ _ _ Hrun Hrest)|].
    split; [exact Hinv'|]. cbn. by rewrite Hlen.
Qed.

Lemma slot_of_bounds i : 0 <= slot_of i <= 986 /\
  exists k, 0 <= k < 35 /\ slot_of i = 29 * k.
Proof.
  unfold slot_of. change slots with 35. rewrite sizeof_LogEntry_eq.
  pose proof (Z.mod_pos_bound (Z.of_nat i) 35 ltac:(lia)) as Hm.
  split; [lia|]. by exists (Z.of_nat i mod 35).
Qed.

(** The call number [n] writes at [slot_of n]. *)
Lemma cursor_after_next n :
  (if 1024 <=? cursor_after n + 29 then 0 else cursor_after n) = slot_of n /\
  ((1024 <=? cursor_after n + 29) = negb (n =? 0)%nat && (slot_of n =? 0)).
Proof.
  destruct n as [|i]; [by split|].
  unfold cursor_after, slot_of. change slots with 35.
  rewrite sizeof_LogEntry_eq. rewrite Nat2Z.inj_succ. cbn [Nat.eqb negb andb].
  pose proof (Z.mod_pos_bound (Z.of_nat i) 35 ltac:(lia)) as Hi.
  pose proof (Z.mod_pos_bound (Z.succ (Z.of_nat i)) 35 ltac:(lia)) as HSi.
  assert (Z.succ (Z.of_nat i) mod 35
          = if Z.of_nat i mod 35 =? 34 then 0 else Z.of_nat i mod 35 + 1)
    as Hstep.
  { destruct (Z.of_nat i mod 35 =? 34) eqn:Hlast.
    - apply Z.eqb_eq in Hlast. Z.div_mod_to_equations. lia.
    - apply Z.eqb_neq in Hlast. Z.div_mod_to_equations. lia. }
  rewrite Hstep. destruct (Z.of_nat i mod 35 =? 34) eqn:Hlast.
  - apply Z.eqb_eq in Hlast. rewrite Hlast. by split.
  - apply Z.eqb_neq in Hlast.
    replace (1024 <=? 29 * (Z.of_nat i mod 35) + 29 + 29) with false
      by (symmetry; apply Z.leb_gt; lia).
    split; [lia|]. symmetry. apply Z.eqb_neq. lia.
Qed.

(** What one more call does after [n] calls. *)
Lemma save_after n e st :
  store_inv st -> currentAddress st = cursor_after n ->
  let mem' := take (Z.to_nat (slot_of n)) (eeprom st) ++ object_bytes e
                ++ drop (Z.to_nat (slot_of n) + length (object_bytes e))
                     (eeprom st) in
  saveToEEPROM e st
  = Some (mkState mem' (cursor_after (S n)),
          mkSaved (negb (n =? 0)%nat && (slot_of n =? 0)) (slot_of n)
            (cursor_after (S n))) /\
  store_inv (mkState mem' (cursor_after (S n))).
Proof.
  intros Hinv Hcur. cbn zeta.
  destruct (saveToEEPROM_inv e st Hinv) as (Hrun & _ & _ & Hinv').
  rewrite sizeof_LogEntry_eq, EEPROM_SIZE_eq, Hcur in Hrun, Hinv'.
  destruct (cursor_after_next n) as [Hslot Hreset].
  rewrite Hslot, Hreset in Hrun. rewrite Hslot in Hinv'.
  unfold cursor_after at 1 3. rewrite sizeof_LogEntry_eq. by split.
Qed.

(** The state after any number of entries, from any start-up contents: the
    cursor, the records still in the store, and the bytes behind the last
    slot. *)
Lemma logger_retains entries mem :
  Z.of_nat (length mem) = EEPROM_SIZE ->
  exists st ss,
    vTaskLogger entries (boot_state mem) = Some (st, ss) /\
    store_inv st /\ length ss = length entries /\
    currentAddress st = cursor_after (length entries) /\
    (forall i s, ss !! i = Some s ->
       s = mkSaved (negb (i =? 0)%nat && (slot_of i =? 0)) (slot_of i)
             (cursor_after (S i))) /\
    (forall i e, entries !! i = Some e ->
       (length entries - i <= 35)%nat ->
       region (slot_of i) sizeof_LogEntry (eeprom st) = object_bytes e) /\
    region 1015 9 (eeprom st) = region 1015 9 mem.
Proof.
  intros Hmem. induction entries as [|e entries IH] using rev_ind.
  - exists (boot_state mem), []. split; [reflexivity|].
    split; [by apply boot_state_inv|]. by repeat split.
  - destruct IH
      as (st & ss & Hrun & Hinv & Hlen & Hcur & Hcalls & Hkeep & Htail).
    destruct (save_after (length entries) e st Hinv Hcur) as [Hsave Hinv'].
    set (mem' := take _ _ ++ _ ++ drop _ _) in *.
    eexists _, (ss ++ [_]).
    split.
    { rewrite run_logger_app, Hrun. cbn [vTaskLogger]. by rewrite Hsave. }
    split; [exact Hinv'|].
    split; [rewrite !length_app; cbn; lia|].
    split; [rewrite length_app; cbn [length]; by rewrite Nat.add_1_r|].
    split.
    { intros i s Hs. apply lookup_app_Some in Hs as [Hs | [Hge Hs]].
      - by apply Hcalls.
      - assert (i = length ss) as ->
          by (apply lookup_lt_Some in Hs; cbn in Hs; lia).
        rewrite Nat.sub_diag in Hs. inversion Hs. by rewrite Hlen. }
    pose proof (length_object_bytes e) as Hobj.
    rewrite sizeof_LogEntry_eq in *.
    destruct Hinv as (Hsize & _ & _). rewrite EEPROM_SIZE_eq in Hsize.
    destruct (slot_of_bounds (length entries)) as [Hslot (k & Hk & Hslotk)].
    cbn [eeprom]. split.
    + intros i ei Hi Hrecent. rewrite length_app in Hrecent. cbn in Hrecent.
      apply lookup_app_Some in Hi as [Hi | [Hge Hi]].
      * (* an older record: its slot is not the one written now *)
        pose proof (lookup_lt_Some _ _ _ Hi) as Hlt.
        rewrite <- (Hkeep i ei Hi) by lia.
        destruct (slot_of_bounds i) as [Hsloti (j & Hj & Hslotj)].
        assert (j <> k) as Hjk.
        { intros ->. unfold slot_of in Hslotj, Hslotk.
          change slots with 35 in Hslotj, Hslotk.
          rewrite sizeof_LogEntry_eq in Hslotj, Hslotk.
          assert (Z.of_nat i mod 35 = Z.of_nat (length entries) mod 35)
            as Hmod by lia.
          clear -Hmod Hlt Hrecent. Z.div_mod_to_equations. lia. }
        subst mem'.
        rewrite <- (Z2Nat.id (slot_of i)) by lia.
        change 29 with (Z.of_nat 29).
        apply region_outside; lia.
      * (* the record written now *)
        assert (i = length entries) as ->
          by (apply lookup_lt_Some in Hi; cbn in Hi; lia).
        rewrite Nat.sub_diag in Hi. inversion Hi; subst ei. subst mem'.
        rewrite <- (Z2Nat.id (slot_of (length entries))) at 1 by lia.
        rewrite <- Hobj. apply region_written. lia.
    + rewrite <- Htail. subst mem'.
      change 1015 with (Z.of_nat 1015). change 9 with (Z.of_nat 9).
      apply region_outside; lia.
Qed.

(** X7.  In every state the log can be in, a call changes no byte of the store
    outside the 29 bytes of the record it writes, and keeps the size of
    the store. *)
Theorem save_frame e st :
  reachable st ->
  exists st' s,
    saveToEEPROM e st = Some (st', s) /\
    length (eeprom st') = length (eeprom st) /\
    forall a : nat,
      Z.of_nat a < written_at s \/
      written_at s + sizeof_LogEntry <= Z.of_nat a ->
      eeprom st' !! a = eeprom st !! a.
Proof.
  intros Hreach. pose proof (reachable_inv st Hreach) as Hinv.
  destruct (saveToEEPROM_inv e st Hinv) as (Hrun & [Hc0 Hc1] & _ & Hinv').
  eexists _, _. split; [exact Hrun|]. cbn [eeprom written_at].
  pose proof (length_object_bytes e) as Hobj.
  destruct Hinv as (Hsize & _ & _). destruct Hinv' as (Hsize' & _ & _).
  cbn [eeprom] in Hsize'.
  rewrite sizeof_LogEntry_eq, EEPROM_SIZE_eq in *.
  split; [lia|]. intros a Ha. apply splice_lookup_outside; lia.
Qed.

(** X8.  The nine bytes behind the last slot, at offsets 1015 to 1023, are never
    written: after any sequence of entries they still hold what the store
    held at start-up. *)
Theorem tail_never_written entries mem :
  Z.of_nat (length mem) = EEPROM_SIZE ->
  exists st ss,
    vTaskLogger entries (boot_state mem) = Some (st, ss) /\
    region (slots * sizeof_LogEntry) (EEPROM_SIZE - slots * sizeof_LogEntry)
      (eeprom st)
    = region (slots * sizeof_LogEntry) (EEPROM_SIZE - slots * sizeof_LogEntry)
        mem.
Proof.
  intros Hmem.
  destruct (logger_retains entries mem Hmem)
    as (st & ss & Hrun & _ & _ & _ & _ & _ & Htail).
  by exists st, ss.
Qed.

(** X9.  The store is a ring of 35 slots: counted from 0, call number [i]
    writes at offset [29 * (i mod 35)], prints the reset message exactly
    when [i > 0] and [i mod 35 = 0], and leaves the cursor 29 bytes after
    the offset it wrote at. *)
Theorem slot_closed_form entries mem :
  Z.of_nat (length mem) = EEPROM_SIZE ->
  exists st ss,
    vTaskLogger entries (boot_state mem) = Some (st, ss) /\
    length ss = length entries /\
    currentAddress st = cursor_after (length entries) /\
    forall i s, ss !! i = Some s ->
      written_at s = 29 * (Z.of_nat i mod 35) /\
      (was_reset s = true <-> (0 < i)%nat /\ Z.of_nat i mod 35 = 0) /\
      reported s = written_at s + 29.
Proof.
  intros Hmem.
  destruct (logger_retains entries mem Hmem)
    as (st & ss & Hrun & _ & Hlen & Hcur & Hcalls & _).
  exists st, ss. split; [exact Hrun|]. split; [exact Hlen|].
  split; [exact Hcur|]. intros i s Hs. rewrite (Hcalls i s Hs). cbn.
  split; [reflexivity|]. split; [|reflexivity].
  unfold slot_of. change slots with 35. rewrite sizeof_LogEntry_eq.
  rewrite andb_true_iff, negb_true_iff, Nat.eqb_neq, Z.eqb_eq. lia.
Qed.

(** X10.  The store keeps the last 35 entries: after any sequence of entries,
    each of the 35 most recent ones is in the store, whole, in its slot.
    Entry number [i] is lost when entry number [i + 35] is written. *)
Theorem last_entries_retained entries mem :
  Z.of_nat (length mem) = EEPROM_SIZE ->
  exists st ss,
    vTaskLogger entries (boot_state mem) = Some (st, ss) /\
    forall i e, entries !! i = Some e ->
      Z.of_nat (length entries) - Z.of_nat i <= slots ->
      region (slot_of i) sizeof_LogEntry (eeprom st) = object_bytes e.
Proof.
  intros Hmem.
  destruct (logger_retains entries mem Hmem)
    as (st & ss & Hrun & _ & _ & _ & _ & Hkeep & _).
  exists st, ss. split; [exact Hrun|]. intros i e Hi Hrecent.
  apply Hkeep; [exact Hi|]. change slots with 35 in Hrecent. lia.
Qed.

End RetentionFacts.

Lemma save_frame_witness :
  exists st' s,
    Store.saveToEEPROM Store.sample_entry (Store.boot_state Store.erased)
    = Some (st', s) /\
    Store.eeprom st' !! 29%nat = Some 255.
Proof.
  destruct (save_frame Store.sample_entry (Store.boot_state Store.erased))
    as (st' & s & Hrun & _ & Hframe); [by apply Store.reach_boot|].
  exists st', s. split; [exact Hrun|]. rewrite Hframe; [reflexivity|].
  right. vm_compute in Hrun. inversion Hrun. vm_compute. discriminate.
Defined.

Lemma tail_never_written_witness :
  exists st ss,
    Store.vTaskLogger (replicate 40 Store.sample_entry)
      (Store.boot_state Store.erased) = Some (st, ss) /\
    Store.region 1015 9 (Store.eeprom st) = replicate 9 255.
Proof.
  destruct (tail_never_written (replicate 40 Store.sample_entry) Store.erased)
    as (st & ss & Hrun & Htail); [reflexivity|].
  exists st, ss. split; [exact Hrun|]. exact Htail.
Defined.

Lemma slot_closed_form_witness :
  exists st ss,
    Store.vTaskLogger (replicate 40 Store.sample_entry)
      (Store.boot_state Store.erased) = Some (st, ss) /\
    Store.currentAddress st = 145.
Proof.
  destruct (slot_closed_form (replicate 40 Store.sample_entry) Store.erased)
    as (st & ss & Hrun & _ & Hcur & _); [reflexivity|].
  exists st, ss. split; [exact Hrun|]. exact Hcur.
Defined.

Lemma last_entries_retained_witness :
  exists st ss,
    Store.vTaskLogger
      (replicate 39 Store.sample_entry ++ [Store.later_entry])
      (Store.boot_state Store.erased) = Some (st, ss) /\
    Store.region 116 29 (Store.eeprom st)
    = Store.object_bytes Store.later_entry.
Proof.
  destruct (last_entries_retained
              (replicate 39 Store.sample_entry ++ [Store.later_entry])
              Store.erased)
    as (st & ss & Hrun & Hkeep); [reflexivity|].
  exists st, ss. split; [exact Hrun|].
  apply (Hkeep 39%nat Store.later_entry); [reflexivity | vm_compute; discriminate].
Defined.

(* ===================================================================== *)
(** * More on the keypad task *)
(* ===================================================================== *)

Section KeyboardTiming.
Import Keyboard.
Implicit Types (st : State) (p q : Poll) (polls rest : list Poll).
Implicit Types (k : ascii) (t d : Z).

Lemma millis_delay t d : millis (t + d) = to_uint32 (millis t + d).
Proof. unfold millis, to_uint32. by rewrite Zplus_mod_idemp_l. Qed.

Lemma elapsed_delay t d (T : Z) :
  to_uint32 (millis (t + d) - to_uint32 (T + d)) = to_uint32 (millis t - T).
Proof.
  unfold millis, to_uint32.
  rewrite <- Zminus_mod, Zminus_mod_idemp_l. f_equal. lia.
Qed.

Lemma step_delay d st p :
  step (delay_state d st) (delay_poll d p)
  = (delay_state d (fst (step st p)), snd (step st p)).
Proof.
  unfold step, delay_state, delay_poll. cbn [key t_poll t_check lastKey].
  destruct (negb (Ascii.eqb (key p) NO_KEY)
            && negb (Ascii.eqb (key p) (lastKey st))); cbn [lastKeyTime].
  - rewrite (millis_delay (t_poll p) d), elapsed_delay.
    by destruct (to_uint32 (millis (t_check p) - millis (t_poll p)) >? 200).
  - rewrite elapsed_delay.
    by destruct (to_uint32 (millis (t_check p) - lastKeyTime st) >? 200).
Qed.

(** X11.  The task does not depend on when it runs: moving all its [millis()]
    readings and the stored [lastKeyTime] by the same amount, across a
    roll-over of the 32-bit counter or not, gives the same dispatches. *)
Theorem roll_over_safe d st polls :
  vTaskKeyboard (delay_state d st) (delay_poll d <$> polls)
  = vTaskKeyboard st polls.
Proof.
  revert st. induction polls as [|p polls IH]; intros st; [reflexivity|].
  cbn [fmap list_fmap vTaskKeyboard]. rewrite step_delay.
  destruct (step st p) as [st' [k|]]; cbn [fst snd]; by rewrite IH.
Qed.

(** A poll condition for what follows an accepted key [k] at time [t0]:
    nothing reported, or [k] again less than 200 ms after [t0]. *)
Lemma check_keeps k t0 p rest st :
  lastKey st = k -> lastKeyTime st = millis t0 -> t0 <= t_check p ->
  well_timed (p :: rest) ->
  Forall (fun q => key q = NO_KEY \/ key q = k /\ t_poll q < t0 + 200) rest ->
  ~ Forall (fun q => key q = NO_KEY) rest ->
  (to_uint32 (millis (t_check p) - lastKeyTime st) >? 200) = false.
Proof.
  intros Hk Ht Ht0 Hwt Hrest Hsome.
  apply not_Forall_Exists in Hsome; [|apply _].
  apply Exists_exists in Hsome as (q & Hq & Hkey).
  pose proof (well_timed_later p rest Hwt) as Hlater.
  eapply Forall_forall in Hlater; [|exact Hq].
  eapply Forall_forall in Hrest; [|exact Hq].
  destruct Hrest as [Hno | [_ Hspan]]; [done|].
  rewrite Ht, elapsed_exact by lia.
  rewrite Z.gtb_ltb. apply Z.ltb_ge. lia.
Qed.

Lemma quiet_after_accept k t0 rest : forall st,
  k <> NO_KEY -> lastKey st = k -> lastKeyTime st = millis t0 ->
  well_timed rest ->
  Forall (fun q => t0 <= t_poll q) rest ->
  Forall (fun q => key q = NO_KEY \/ key q = k /\ t_poll q < t0 + 200) rest ->
  vTaskKeyboard st rest = [].
Proof.
  induction rest as [|p rest IH]; intros st Hk Hlast Ht Hwt Hafter Hcond;
    [done|].
  apply Forall_cons in Hcond as [Hp Hcond].
  apply Forall_cons in Hafter as [Hp0 Hafter].
  assert (step st p
          = (if to_uint32 (millis (t_check p) - lastKeyTime st) >? 200
             then mkState NO_KEY (lastKeyTime st) else st, None)) as Hstep.
  { unfold step. destruct Hp as [-> | [-> _]].
    - change (Ascii.eqb NO_KEY NO_KEY) with true. done.
    - rewrite Hlast, Ascii.eqb_refl. by rewrite andb_false_r. }
  cbn [vTaskKeyboard]. rewrite Hstep.
  destruct (decide (Forall (fun q => key q = NO_KEY) rest)) as [Hidle|Hsome].
  - by apply idle_polls.
  - rewrite (check_keeps k t0 p rest st); auto.
    + apply IH; auto. by destruct Hwt as (_ & _ & _ & ?).
    + destruct Hwt as (_ & ? & _). lia.
Qed.

(** X12.  Contact bounce is suppressed: once a key is accepted, whatever mix of
    "nothing pressed" and "the same key again" the keypad reports, the key
    is not dispatched a second time as long as it is reported again only
    less than 200 ms after it was accepted. *)
Theorem bounce_suppressed st k p0 rest :
  k <> NO_KEY -> lastKey st <> k -> key p0 = k ->
  well_timed (p0 :: rest) ->
  Forall (fun q => key q = NO_KEY \/ key q = k /\ t_poll q < t_poll p0 + 200)
    rest ->
  vTaskKeyboard st (p0 :: rest) = [k].
Proof.
  intros Hk Hlast Hp0 Hwt Hcond.
  cbn [vTaskKeyboard]. unfold step. rewrite Hp0.
  rewrite (proj2 (Ascii.eqb_neq k NO_KEY)) by done.
  rewrite (proj2 (Ascii.eqb_neq k (lastKey st))) by auto.
  cbn [negb andb lastKeyTime]. f_equal.
  destruct (decide (Forall (fun q => key q = NO_KEY) rest)) as [Hidle|Hsome].
  { by apply idle_polls. }
  pose proof (check_keeps k (t_poll p0) p0 rest
                (mkState k (millis (t_poll p0)))) as Hkeep.
  cbn [lastKey lastKeyTime] in Hkeep. rewrite Hkeep; auto.
  - pose proof (well_timed_later p0 rest Hwt) as Hlater.
    destruct Hwt as (_ & Hpc & _ & Hwt).
    apply (quiet_after_accept k (t_poll p0)); auto.
    eapply Forall_impl; [exact Hlater|]. cbn. intros q Hq. lia.
  - destruct Hwt as (_ & ? & _). lia.
Qed.

(** X13.  A command key that stays pressed repeats: each of [A], [B], [C], [D]
    delays the pass by at least a second, which is past the 200 ms window,
    so [lastKey] is cleared at the end of the very pass that dispatched
    the key, and the next pass dispatches it again. *)
Theorem command_key_repeats st k polls :
  command_of k <> NoCommand -> lastKey st <> k ->
  Forall (fun p => key p = k /\ dwells p) polls ->
  vTaskKeyboard st polls = replicate (length polls) k.
Proof.
  intros Hcmd. assert (k <> NO_KEY) as Hk by (by intros ->).
  assert (1000 <= dwell (command_of k)) as Hdwell
    by (destruct (command_of k); cbn; done || lia).
  revert st. induction polls as [|p polls IH]; intros st Hlast Hpolls;
    [done|].
  apply Forall_cons in Hpolls as [[Hp (Hp0 & Hpd & Hps)] Hpolls].
  cbn [vTaskKeyboard length replicate]. unfold step. rewrite Hp.
  rewrite (proj2 (Ascii.eqb_neq k NO_KEY)) by done.
  rewrite (proj2 (Ascii.eqb_neq k (lastKey st))) by auto.
  cbn [negb andb lastKeyTime]. rewrite Hp in Hpd.
  rewrite elapsed_exact by lia.
  replace (t_check p - t_poll p >? 200) with true
    by (symmetry; rewrite Z.gtb_ltb; apply Z.ltb_lt; lia).
  f_equal. apply IH; [|exact Hpolls]. cbn. auto.
Qed.

End KeyboardTiming.

Lemma bounce_suppressed_witness :
  Keyboard.vTaskKeyboard Keyboard.initial_state
    (Keyboard.quick "5" 1000
       :: [Keyboard.quick Keyboard.NO_KEY 1050; Keyboard.quick "5" 1100;
           Keyboard.quick "5" 1150; Keyboard.quick Keyboard.NO_KEY 1200;
           Keyboard.quick Keyboard.NO_KEY 1500])
  = ["5"%char].
Proof.
  apply bounce_suppressed.
  - discriminate.
  - discriminate.
  - reflexivity.
  - cbn. lia.
  - repeat constructor; cbn; (by left) || (right; split; [reflexivity | lia]).
Defined.

Lemma command_key_repeats_witness :
  Keyboard.vTaskKeyboard Keyboard.initial_state
    [Keyboard.mkPoll "B" 1000 2010; Keyboard.mkPoll "B" 2060 3070;
     Keyboard.mkPoll "B" 3120 4130]
  = ["B"%char; "B"%char; "B"%char].
Proof.
  apply (command_key_repeats Keyboard.initial_state "B"
           [Keyboard.mkPoll "B" 1000 2010; Keyboard.mkPoll "B" 2060 3070;
            Keyboard.mkPoll "B" 3120 4130]).
  - discriminate.
  - discriminate.
  - repeat constructor; cbn; lia.
Defined.

(* ===================================================================== *)
(** * The display task *)
(* ===================================================================== *)

Section DisplayFacts.
Import Display.
Implicit Types (st : State) (p q : Pass) (passes : list Pass).

Lemma mode_of_render (m : Z) p : mode_of (render m p) = m mod 3.
Proof.
  unfold render. pose proof (Z.mod_pos_bound m 3 ltac:(lia)) as Hm.
  destruct (m mod 3 =? 0) eqn:H0; [apply Z.eqb_eq in H0; by rewrite H0|].
  destruct (m mod 3 =? 1) eqn:H1; [apply Z.eqb_eq in H1; by rewrite H1|].
  apply Z.eqb_neq in H0, H1. cbn. lia.
Qed.

(** What a pass does to the locals the drawing depends on. *)
Lemma step_draws st p :
  let draw :=
    Keyboard.to_uint32 (Keyboard.millis (t_gate p) - lastDisplayTime st)
    >? 500 in
  snd (fst (step st p))
  = (if draw then Some (render (displayMode st) p) else None) /\
  displayMode (fst (fst (step st p)))
  = (if draw then to_uint8 (displayMode st + 1) else displayMode st) /\
  lastDisplayTime (fst (fst (step st p)))
  = (if draw then Keyboard.millis (t_stamp p) else lastDisplayTime st).
Proof.
  cbn zeta. unfold step.
  destruct (Keyboard.to_uint32
              (Keyboard.millis (t_gate p) - lastDisplayTime st) >? 500);
    cbn [fst snd];
    match goal with |- context [if ?c then _ else _] => by destruct c end.
Qed.

Lemma drawn_mode passes : forall st k a,
  0 <= displayMode st < 256 ->
  vTaskDisplay st passes !! k = Some a ->
  mode_of (snd a) = ((displayMode st + Z.of_nat k) mod 256) mod 3.
Proof.
  induction passes as [|p passes IH]; intros st k a Hrange Ha; [done|].
  cbn [vTaskDisplay] in Ha.
  destruct (step_draws st p) as (Hdrawn & Hmode & _).
  destruct (step st p) as [[st' drawn] out]; cbn [fst snd] in *.
  destruct (Keyboard.to_uint32
              (Keyboard.millis (t_gate p) - lastDisplayTime st) >? 500);
    subst drawn.
  - destruct k as [|k]; cbn in Ha.
    + inversion Ha; subst a. cbn [snd].
      rewrite mode_of_render, Z.add_0_r.
      by rewrite (Z.mod_small (displayMode st) 256).
    + rewrite (IH st' k a);
        [|rewrite Hmode; apply Z.mod_pos_bound; lia|exact Ha].
      rewrite Hmode. unfold to_uint8.
      rewrite Zplus_mod_idemp_l. do 2 f_equal. lia.
  - rewrite (IH st' k a); [|by rewrite Hmode|exact Ha]. by rewrite Hmode.
Qed.

(** X14.  The screens follow the 8-bit counter [displayMode], not a counter
    modulo 3: counted from 0, the screen drawn number [k] is screen number
    [(k mod 256) mod 3].  So the three screens alternate in order, except
    that after every 256 screens the illuminance screen comes twice in a
    row (255 mod 3 = 0, and the counter then wraps to 0). *)
Theorem display_mode_sequence passes k a :
  vTaskDisplay initial_state passes !! k = Some a ->
  mode_of (snd a) = (Z.of_nat k mod 256) mod 3 /\
  forall b, vTaskDisplay initial_state passes !! S k = Some b ->
    mode_of (snd b)
    = if Z.of_nat k mod 256 =? 255 then mode_of (snd a)
      else (mode_of (snd a) + 1) mod 3.
Proof.
  intros Ha.
  pose proof (drawn_mode passes initial_state k a ltac:(cbn; lia) Ha) as Hk.
  cbn [displayMode initial_state] in Hk. rewrite Z.add_0_l in Hk.
  split; [exact Hk|]. intros b Hb.
  pose proof (drawn_mode passes initial_state (S k) b ltac:(cbn; lia) Hb)
    as HSk.
  cbn [displayMode initial_state] in HSk. rewrite Z.add_0_l in HSk.
  rewrite HSk, Hk. rewrite Nat2Z.inj_succ.
  pose proof (Z.mod_pos_bound (Z.of_nat k) 256 ltac:(lia)) as Hm.
  destruct (Z.of_nat k mod 256 =? 255) eqn:Hwrap.
  - apply Z.eqb_eq in Hwrap.
    replace (Z.succ (Z.of_nat k) mod 256) with 0
      by (clear -Hwrap; Z.div_mod_to_equations; lia).
    by rewrite Hwrap.
  - apply Z.eqb_neq in Hwrap.
    replace (Z.succ (Z.of_nat k) mod 256) with (Z.of_nat k mod 256 + 1)
      by (clear -Hwrap Hm; Z.div_mod_to_equations; lia).
    by rewrite Zplus_mod_idemp_l.
Qed.

Lemma in_order_later base p passes :
  in_order base (p :: passes) ->
  Forall (fun q => t_stamp p <= t_gate q) passes.
Proof.
  revert p. induction passes as [|q passes IH]; intros p Hord; [constructor|].
  destruct Hord as (_ & _ & _ & Hpq & Hrest).
  constructor; [exact Hpq|].
  pose proof (IH q Hrest) as Hlater.
  destruct Hrest as (_ & Hq & _).
  eapply Forall_impl; [exact Hlater|]. cbn. intros r Hr. lia.
Qed.

(** After a screen was drawn at time [T], the next one is drawn more than
    500 ms later. *)
Lemma next_screen base T passes : forall st b,
  lastDisplayTime st = Keyboard.millis T -> base <= T ->
  in_order base passes -> Forall (fun q => T <= t_gate q) passes ->
  vTaskDisplay st passes !! 0%nat = Some b ->
  500 < t_gate (fst b) - T.
Proof.
  induction passes as [|p passes IH]; intros st b Hlast HT Hord Hafter Hb;
    [done|].
  cbn [vTaskDisplay] in Hb.
  destruct (step_draws st p) as (Hdrawn & _ & Htime).
  destruct (step st p) as [[st' drawn] out]; cbn [fst snd] in *.
  apply Forall_cons in Hafter as [Hp Hafter].
  destruct Hord as (Hb0 & Hgs & Hend & _ & Hord).
  destruct (Keyboard.to_uint32
              (Keyboard.millis (t_gate p) - lastDisplayTime st) >? 500)
    eqn:Hgate; subst drawn.
  - cbn in Hb. inversion Hb; subst b. cbn [fst].
    rewrite Hlast, elapsed_exact in Hgate by lia.
    rewrite Z.gtb_ltb in Hgate. apply Z.ltb_lt in Hgate. lia.
  - apply (IH st'); auto. by rewrite Htime.
Qed.

(** X15.  The LCD is redrawn at most once in 500 ms: between the end of one
    redraw and the decision for the next one more than 500 ms pass. *)
Theorem redraw_spacing base passes : forall st k a b,
  in_order base passes ->
  vTaskDisplay st passes !! k = Some a ->
  vTaskDisplay st passes !! S k = Some b ->
  500 < t_gate (fst b) - t_stamp (fst a).
Proof.
  induction passes as [|p passes IH]; intros st k a b Hord Ha Hb; [done|].
  cbn [vTaskDisplay] in Ha, Hb.
  pose proof (in_order_later base p passes Hord) as Hlater.
  destruct (step_draws st p) as (Hdrawn & _ & Htime).
  destruct (step st p) as [[st' drawn] out]; cbn [fst snd] in *.
  destruct Hord as (Hb0 & Hgs & Hend & _ & Hord).
  destruct (Keyboard.to_uint32
              (Keyboard.millis (t_gate p) - lastDisplayTime st) >? 500);
    subst drawn.
  - destruct k as [|k]; cbn in Ha, Hb.
    + inversion Ha; subst a. cbn [fst].
      apply (next_screen base (t_stamp p) passes st'); auto. lia.
    + by apply (IH st' k).
  - by apply (IH st' k).
Qed.

End DisplayFacts.

Lemma display_mode_sequence_witness :
  Display.mode_of
    (snd (Display.at_time 1200,
          Display.AdcValue 650)) = (Z.of_nat 1 mod 256) mod 3.
Proof.
  apply (display_mode_sequence
           [Display.at_time 600; Display.at_time 800; Display.at_time 1200;
            Display.at_time 1800]
           1 (Display.at_time 1200, Display.AdcValue 650)).
  reflexivity.
Defined.

Lemma redraw_spacing_witness :
  500 < Display.t_gate (Display.at_time 1200)
        - Display.t_stamp (Display.at_time 600).
Proof.
  apply (redraw_spacing 0
           [Display.at_time 600; Display.at_time 800; Display.at_time 1200;
            Display.at_time 1800]
           Display.initial_state 0
           (Display.at_time 600, Display.MainDisplay (of_int 625) 650)
           (Display.at_time 1200, Display.AdcValue 650)).
  - cbn. lia.
  - reflexivity.
  - reflexivity.
Defined.

(* ===================================================================== *)
(** * The entry built by the log command *)
(* ===================================================================== *)

Section LogCommandFacts.
Import Store LogCommand.
Implicit Types (stack_label : list byte) (adcValue now : Z).

Lemma Manual_Log_copied stack_label :
  strncpy stack_label Manual_Log 20
  = (Manual_Log ++ replicate 10 0) ++ drop 20 stack_label.
Proof. reflexivity. Qed.

(** X16.  Case [B] always builds an entry, whatever the sensor and the clock
    give and whatever the stack held.  Its label reads "Manual_Log" as a C string: bytes 0 to 9 are the text
    and bytes 10 to 19 are 0.  Byte 20 of the label is never written: it,
    and with it the last byte of the record that goes to the EEPROM, is
    whatever the stack held. *)
Theorem log_entry_built stack_label adcValue now :
  length stack_label = 21%nat ->
  exists e,
    make_entry stack_label adcValue now = Some e /\
    timestamp e = now /\
    Lux.calculateLuxFromADC adcValue Lux.CalibrationData = Some (lux e) /\
    length (label e) = 21%nat /\
    c_str (label e) = Manual_Log /\
    take 20 (label e) = Manual_Log ++ replicate 10 0 /\
    label e !! 20%nat = stack_label !! 20%nat /\
    object_bytes e !! 28%nat = stack_label !! 20%nat.
Proof.
  intros Hlen.
  destruct (calculateLuxFromADC_total Lux.CalibrationData adcValue)
    as (v & Hv); [discriminate|].
  set (lbl := (Manual_Log ++ replicate 10 0) ++ drop 20 stack_label).
  assert (make_entry stack_label adcValue now = Some (mkLogEntry v now lbl))
    as Hmk by (unfold make_entry; rewrite Hv; reflexivity).
  assert (length lbl = 21%nat) as Hlabel
    by (subst lbl; rewrite length_app, length_drop, Hlen; reflexivity).
  assert (lbl !! 20%nat = stack_label !! 20%nat) as Hlast.
  { subst lbl. rewrite lookup_app_r by (cbn; lia). rewrite lookup_drop.
    reflexivity. }
  eexists. split; [exact Hmk|]. cbn [timestamp lux label].
  split; [reflexivity|]. split; [exact Hv|].
  split; [exact Hlabel|]. split; [reflexivity|].
  split; [subst lbl; by rewrite take_app_length' by reflexivity|].
  split; [exact Hlast|].
  unfold object_bytes, label_bytes. cbn [lux timestamp label].
  change (Z.to_nat label_size) with 21%nat.
  rewrite take_app_length' by (by rewrite Hlabel).
  rewrite lookup_app_r by (cbn; lia).
  rewrite lookup_app_r by (cbn; lia).
  exact Hlast.
Qed.

End LogCommandFacts.

Lemma log_entry_built_witness :
  exists e,
    LogCommand.make_entry (replicate 21 170) 650 1700000000 = Some e /\
    Store.object_bytes e !! 28%nat = Some 170.
Proof.
  destruct (log_entry_built (replicate 21 170) 650 1700000000)
    as (e & Hrun & _ & _ & _ & _ & _ & _ & Hlast); [reflexivity|].
  exists e. split; [exact Hrun|]. exact Hlast.
Defined.
